(** * sqlite-stddev-extension: the incremental statistics engine

    A shallow embedding of [sqlite-stddev-extension.c]: the
    [WindowStatsData] accumulator (a growable circular buffer of doubles
    with a running sum and sum of squares), the SQLite callbacks that
    drive it, and the four statistic formulas.

    Conventions of the embedding:
    - [double] is IEEE 754 binary64, Rocq's primitive [float];
    - [size_t] is a 64-bit unsigned integer, carried as [Z] with the
      wrap-around written out ([size_wrap]);
    - a heap block of doubles is a [list float]; the NULL pointer is [None];
    - a C function whose behaviour is undefined on some input (an access
      outside its block, a remainder by zero, a NULL dereference) returns
      [None] there; every other result is [Some]. *)

From Stdlib Require Import ZArith Lia Floats QArith Qabs String.
From Stdlib Require Import Ascii.
From stdpp Require Import base option list.

Local Open Scope Z_scope.

(** ** Machine integers *)

Definition SIZE_WIDTH : Z := 64.
Definition size_wrap (z : Z) : Z := z mod 2 ^ SIZE_WIDTH.
Definition PTRDIFF_MAX : Z := 2 ^ 63 - 1.
Definition sizeof_double : Z := 8.

(** ** Configuration constants (lines 18-29) *)

Definition INITIAL_CAPACITY : Z := 100.
Definition CAPACITY_GROWTH_FACTOR : Z := 2.
Definition MIN_COUNT_POPULATION : Z := 1.
Definition MIN_COUNT_SAMPLE : Z := 2.

(** ** Doubles *)

Definition NAN : float := nan.

(** The C conversion of an integer to [double]: round to nearest, ties to
    even.  [binary_normalize] is the Standard Library's specification of
    exactly this rounding (it is how [of_uint63] is specified). *)
Definition double_of_Z (n : Z) : float :=
  SF2Prim (binary_normalize prec emax n 0 false).

Definition isnan (x : float) : bool := is_nan x.
Definition isinf (x : float) : bool := is_infinity x.

(** A double that is finite and not a zero. *)
Definition nonzero_finite (x : float) : bool :=
  is_finite x && negb (is_zero x).

(** ** The accumulator (lines 42-50) *)

Record WindowStatsData : Type := mkStats {
  values : option (list float);
  count : Z;
  capacity : Z;
  head : Z;
  tail : Z;
  sum : float;
  sum_sq : float
}.

(** The zero-filled struct that [sqlite3_aggregate_context] hands out on
    its first call. *)
Definition zero_stats : WindowStatsData :=
  mkStats None 0 0 0 0 0%float 0%float.

Definition set_capacity (c : Z) (d : WindowStatsData) : WindowStatsData :=
  mkStats (values d) (count d) c (head d) (tail d) (sum d) (sum_sq d).

Definition set_sums (s q : float) (d : WindowStatsData) : WindowStatsData :=
  mkStats (values d) (count d) (capacity d) (head d) (tail d) s q.

(** ** The allocator

    One call of [malloc] is answered by a [heap_reply]: whether the
    allocator grants the request, and the indeterminate contents of the
    block it returns.  The C library is outside the repository; what is
    assumed of it is that no request above [PTRDIFF_MAX] bytes is granted
    (no C object is larger), and that a granted block has room for the
    bytes requested. *)

Record heap_reply : Type := mkReply {
  granted : bool;
  junk : nat -> float
}.

Definition malloc (h : heap_reply) (bytes : Z) : option (list float) :=
  if granted h && (bytes <=? PTRDIFF_MAX)
  then Some (junk h <$> seq 0 (Z.to_nat (bytes / sizeof_double)))
  else None.

(** A read of [buf[i]]. *)
Definition load (buf : list float) (i : Z) : option float :=
  if 0 <=? i then buf !! Z.to_nat i else None.

(** A write [buf[i] = v]. *)
Definition store (buf : list float) (i : Z) (v : float) : option (list float) :=
  if (0 <=? i) && (i <? Z.of_nat (length buf))
  then Some (<[Z.to_nat i := v]> buf)
  else None.

(** ** Core calculation logic (lines 113-153) *)

Definition calculate_variance_sample (data : WindowStatsData) : float :=
  if count data <? MIN_COUNT_SAMPLE then NAN
  else
    let mean := (sum data / double_of_Z (count data))%float in
    let variance_pop :=
      (sum_sq data / double_of_Z (count data) - mean * mean)%float in
    (variance_pop *
     (double_of_Z (count data) / double_of_Z (size_wrap (count data - 1))))%float.

Definition calculate_variance_population (data : WindowStatsData) : float :=
  if count data <? MIN_COUNT_POPULATION then NAN
  else
    let mean := (sum data / double_of_Z (count data))%float in
    (sum_sq data / double_of_Z (count data) - mean * mean)%float.

Definition calculate_stddev_sample (data : WindowStatsData) : float :=
  let variance := calculate_variance_sample data in
  if isnan variance then NAN else sqrt variance.

Definition calculate_stddev_population (data : WindowStatsData) : float :=
  let variance := calculate_variance_population data in
  if isnan variance then NAN else sqrt variance.

(** ** Buffer helpers (lines 271-349) *)

Definition get_circular_value (data : WindowStatsData) (logical_index : Z)
  : option float :=
  if capacity data =? 0 then None
  else
    let physical_index :=
      size_wrap (head data + logical_index) mod capacity data in
    match values data with
    | None => None
    | Some buf => load buf physical_index
    end.

Definition add_to_circular_buffer (data : WindowStatsData) (value : float)
  : option WindowStatsData :=
  match values data with
  | None => None
  | Some buf =>
      match store buf (tail data) value with
      | None => None
      | Some buf' =>
          if capacity data =? 0 then None
          else Some (mkStats (Some buf')
                             (size_wrap (count data + 1))
                             (capacity data)
                             (head data)
                             (size_wrap (tail data + 1) mod capacity data)
                             (sum data) (sum_sq data))
      end
  end.

Definition remove_from_circular_buffer (data : WindowStatsData)
  : option (float * WindowStatsData) :=
  if count data =? 0 then Some (0%float, data)
  else
    match values data with
    | None => None
    | Some buf =>
        match load buf (head data) with
        | None => None
        | Some removed_value =>
            if capacity data =? 0 then None
            else Some (removed_value,
                       mkStats (Some buf)
                               (size_wrap (count data - 1))
                               (capacity data)
                               (size_wrap (head data + 1) mod capacity data)
                               (tail data)
                               (sum data) (sum_sq data))
        end
    end.

Inductive sqlite_rc : Type := SQLITE_OK | SQLITE_NOMEM.

Definition init_window_stats_data (data : WindowStatsData) (h : heap_reply)
  : sqlite_rc * WindowStatsData :=
  let data1 := set_capacity INITIAL_CAPACITY data in
  match malloc h (size_wrap (capacity data1 * sizeof_double)) with
  | None =>
      (SQLITE_NOMEM,
       mkStats None (count data1) (capacity data1) (head data1) (tail data1)
               (sum data1) (sum_sq data1))
  | Some blk =>
      (SQLITE_OK, mkStats (Some blk) 0 (capacity data1) 0 0 0%float 0%float)
  end.

(** The copy loop of [grow_stats_buffer] (lines 337-339): [n] iterations
    remain, [i] is the loop index. *)
Fixpoint copy_values (data : WindowStatsData) (n : nat) (i : Z)
    (new_values : list float) : option (list float) :=
  match n with
  | O => Some new_values
  | S n' =>
      match get_circular_value data i with
      | None => None
      | Some v =>
          match store new_values i v with
          | None => None
          | Some new_values' => copy_values data n' (i + 1) new_values'
          end
      end
  end.

Definition grow_stats_buffer (data : WindowStatsData) (h : heap_reply)
  : option (sqlite_rc * WindowStatsData) :=
  let new_capacity := size_wrap (capacity data * CAPACITY_GROWTH_FACTOR) in
  match malloc h (size_wrap (new_capacity * sizeof_double)) with
  | None => Some (SQLITE_NOMEM, data)
  | Some blk =>
      match copy_values data (Z.to_nat (count data)) 0 blk with
      | None => None
      | Some new_values =>
          Some (SQLITE_OK,
                mkStats (Some new_values) (count data) new_capacity 0
                        (count data) (sum data) (sum_sq data))
      end
  end.

(** ** The SQLite side

    What the callbacks see of SQLite: the argument values, and the
    function context, which owns the aggregate's memory (the
    [WindowStatsData], once allocated) and the result slot. *)

Inductive sqlite3_value : Type :=
| SqlNull
| SqlInteger (i : Z)
| SqlFloat (d : float)
| SqlText
| SqlBlob.

Inductive sqlite_type : Type :=
| SQLITE_INTEGER | SQLITE_FLOAT | SQLITE_TEXT | SQLITE_BLOB | SQLITE_NULL.

Definition sqlite3_value_type (v : sqlite3_value) : sqlite_type :=
  match v with
  | SqlNull => SQLITE_NULL
  | SqlInteger _ => SQLITE_INTEGER
  | SqlFloat _ => SQLITE_FLOAT
  | SqlText => SQLITE_TEXT
  | SqlBlob => SQLITE_BLOB
  end.

(** The extension asks for the double of INTEGER and FLOAT values only. *)
Definition sqlite3_value_double (v : sqlite3_value) : float :=
  match v with
  | SqlInteger i => double_of_Z i
  | SqlFloat d => d
  | _ => 0%float
  end.

Inductive sql_result : Type :=
| ResultUnset
| ResultNull
| ResultDouble (d : float)
| ResultError (msg : string)
| ResultErrorNomem.

Record sqlite3_context : Type := mkContext {
  pAgg : option WindowStatsData;
  result : sql_result
}.

Definition fresh_context : sqlite3_context := mkContext None ResultUnset.

Definition set_ctx_result (r : sql_result) (context : sqlite3_context)
  : sqlite3_context :=
  mkContext (pAgg context) r.

(** [sqlite3_aggregate_context(context, nBytes)]: the aggregate's memory
    if it exists; otherwise, for [nBytes > 0] and if SQLite's allocator
    agrees ([agg_ok]), fresh zero-filled memory.  The pointer it returns is
    the [pAgg] of the context it leaves. *)
Definition sqlite3_aggregate_context (context : sqlite3_context) (nBytes : Z)
    (agg_ok : bool) : sqlite3_context :=
  match pAgg context with
  | Some _ => context
  | None =>
      if (0 <? nBytes) && agg_ok
      then mkContext (Some zero_stats) (result context)
      else context
  end.

Definition sizeof_WindowStatsData : Z := 56.

(** What one [stats_step] call gets from the two allocators.  One
    [heap_reply] is enough: the call reaches [malloc] at most once, since
    after a successful [init_window_stats_data] the buffer is not full. *)
Record step_env : Type := mkEnv {
  agg_ok : bool;
  heap : heap_reply
}.

(** ** SQLite callbacks (lines 167-245) *)

Definition stats_step (context : sqlite3_context) (argv : list sqlite3_value)
    (env : step_env) : option sqlite3_context :=
  match argv with
  | [arg] =>
      let context := sqlite3_aggregate_context context sizeof_WindowStatsData
                                               (agg_ok env) in
      match pAgg context with
      | None => Some (set_ctx_result ResultErrorNomem context)
      | Some ctx =>
          (* Initialize context on the first call. *)
          let '(rc, ctx) :=
            match values ctx with
            | None => init_window_stats_data ctx (heap env)
            | Some _ => (SQLITE_OK, ctx)
            end in
          match rc with
          | SQLITE_NOMEM => Some (mkContext (Some ctx) ResultErrorNomem)
          | SQLITE_OK =>
              match sqlite3_value_type arg with
              | SQLITE_NULL => Some (mkContext (Some ctx) (result context))
              | SQLITE_INTEGER | SQLITE_FLOAT =>
                  (* Grow buffer if it is full. *)
                  match (if capacity ctx <=? count ctx
                         then grow_stats_buffer ctx (heap env)
                         else Some (SQLITE_OK, ctx)) with
                  | None => None
                  | Some (SQLITE_NOMEM, ctx) =>
                      Some (mkContext (Some ctx) ResultErrorNomem)
                  | Some (SQLITE_OK, ctx) =>
                      let value := sqlite3_value_double arg in
                      match add_to_circular_buffer ctx value with
                      | None => None
                      | Some ctx =>
                          Some (mkContext
                                  (Some (set_sums (sum ctx + value)
                                                  (sum_sq ctx + value * value)
                                                  ctx))
                                  (result context))
                      end
                  end
              | _ =>
                  Some (mkContext (Some ctx)
                          (ResultError
                             "Invalid data type, expected numeric value."))
              end
          end
      end
  | _ =>
      Some (set_ctx_result
              (ResultError "Statistics functions require exactly 1 argument")
              context)
  end.

Definition stats_inverse (context : sqlite3_context)
    (argv : list sqlite3_value) : option sqlite3_context :=
  let context := sqlite3_aggregate_context context 0 false in
  match pAgg context with
  | None => Some context
  | Some ctx =>
      match values ctx with
      | None => Some context
      | Some _ =>
          if count ctx <=? 0 then Some context
          else
            match argv with
            | [] => None
            | arg :: _ =>
                match sqlite3_value_type arg with
                | SQLITE_NULL => Some context
                | _ =>
                    match remove_from_circular_buffer ctx with
                    | None => None
                    | Some (removed_value, ctx) =>
                        Some (mkContext
                                (Some (set_sums
                                         (sum ctx - removed_value)
                                         (sum_sq ctx
                                          - removed_value * removed_value)
                                         ctx))
                                (result context))
                    end
                end
            end
      end
  end.

Definition stats_func : Type := WindowStatsData -> float.

Definition set_result (context : sqlite3_context) (r : float)
  : sqlite3_context :=
  if isnan r || isinf r
  then set_ctx_result ResultNull context
  else set_ctx_result (ResultDouble r) context.

Definition stats_value_helper (context : sqlite3_context) (func : stats_func)
    (min_count : Z) : sqlite3_context :=
  let context := sqlite3_aggregate_context context 0 false in
  match pAgg context with
  | None => set_ctx_result ResultNull context
  | Some ctx =>
      match values ctx with
      | None => set_ctx_result ResultNull context
      | Some _ =>
          if count ctx <? size_wrap min_count
          then set_ctx_result ResultNull context
          else set_result context (func ctx)
      end
  end.

Definition stats_final_helper (context : sqlite3_context) (func : stats_func)
    (min_count : Z) : sqlite3_context :=
  let context := sqlite3_aggregate_context context 0 false in
  match pAgg context with
  | Some ctx =>
      match values ctx with
      | Some _ =>
          if size_wrap min_count <=? count ctx
          then set_result context (func ctx)
          else set_ctx_result ResultNull context
      | None => set_ctx_result ResultNull context
      end
  | None => set_ctx_result ResultNull context
  end.

Definition stddev_samp_value c :=
  stats_value_helper c calculate_stddev_sample MIN_COUNT_SAMPLE.
Definition stddev_pop_value c :=
  stats_value_helper c calculate_stddev_population MIN_COUNT_POPULATION.
Definition variance_samp_value c :=
  stats_value_helper c calculate_variance_sample MIN_COUNT_SAMPLE.
Definition variance_pop_value c :=
  stats_value_helper c calculate_variance_population MIN_COUNT_POPULATION.

Definition stddev_samp_final c :=
  stats_final_helper c calculate_stddev_sample MIN_COUNT_SAMPLE.
Definition stddev_pop_final c :=
  stats_final_helper c calculate_stddev_population MIN_COUNT_POPULATION.
Definition variance_samp_final c :=
  stats_final_helper c calculate_variance_sample MIN_COUNT_SAMPLE.
Definition variance_pop_final c :=
  stats_final_helper c calculate_variance_population MIN_COUNT_POPULATION.

(** ** Driving the callbacks

    SQLite calls [stats_step] for a row entering the frame and
    [stats_inverse] for a row leaving it.  Both are registered with one
    argument, so SQLite always passes exactly one value. *)

Inductive call : Type :=
| Step (arg : sqlite3_value) (env : step_env)
| Inverse (arg : sqlite3_value).

Definition do_call (c : call) (context : sqlite3_context)
  : option sqlite3_context :=
  match c with
  | Step arg env => stats_step context [arg] env
  | Inverse arg => stats_inverse context [arg]
  end.

Fixpoint run (cs : list call) (context : sqlite3_context)
  : option sqlite3_context :=
  match cs with
  | [] => Some context
  | c :: cs' =>
      match do_call c context with
      | None => None
      | Some context' => run cs' context'
      end
  end.

(** Evicting [n] times with [remove_from_circular_buffer], collecting what
    it returns. *)
Fixpoint drain (n : nat) (data : WindowStatsData)
  : option (list float * WindowStatsData) :=
  match n with
  | O => Some ([], data)
  | S n' =>
      match remove_from_circular_buffer data with
      | None => None
      | Some (x, data') =>
          match drain n' data' with
          | None => None
          | Some (xs, data'') => Some (x :: xs, data'')
          end
      end
  end.

(** An allocator that grants, with zero-filled blocks. *)
Definition plenty : step_env := mkEnv true (mkReply true (fun _ => 0%float)).
(** An allocator whose [malloc] refuses. *)
Definition no_heap : step_env := mkEnv true (mkReply false (fun _ => 0%float)).

Definition enter (v : float) : call := Step (SqlFloat v) plenty.
Definition leave : call := Inverse (SqlFloat 0%float).

(** ** The structural invariant and the logical contents *)

(** The largest capacity whose buffer fits in an object. *)
Definition MAX_CAPACITY : Z := PTRDIFF_MAX / sizeof_double.

Definition buffer_invariant (d : WindowStatsData) : Prop :=
  0 <= count d <= capacity d /\
  0 <= head d < capacity d /\
  tail d = (head d + count d) mod capacity d.

(** The live values, oldest first, read through [get_circular_value]. *)
Definition live (d : WindowStatsData) : option (list float) :=
  mapM (get_circular_value d) (Z.of_nat <$> seq 0 (Z.to_nat (count d))).

(** [holds d l]: the accumulator [d] is well formed and its live values,
    oldest first, are [l].  Before the buffer exists every field is still
    zero (only [capacity] may already be set). *)
Definition holds (d : WindowStatsData) (l : list float) : Prop :=
  Z.of_nat (length l) = count d /\
  match values d with
  | None =>
      count d = 0 /\ head d = 0 /\ tail d = 0 /\
      sum d = 0%float /\ sum_sq d = 0%float
  | Some buf =>
      Z.of_nat (length buf) = capacity d /\
      capacity d <= MAX_CAPACITY /\
      buffer_invariant d /\
      forall (i : nat) (x : float),
        l !! i = Some x ->
        buf !! Z.to_nat ((head d + Z.of_nat i) mod capacity d) = Some x
  end.

Definition valid (d : WindowStatsData) : Prop := exists l, holds d l.

(** ** The accumulator of the specification

    [SlidingStatsAccumulator] as the specification words it: a FIFO of
    live values with a capacity and the two running aggregates. *)

Module Spec.

Record acc : Type := mk {
  items : list float;
  cap : Z;
  sum : float;
  sumSquares : float
}.

Definition empty : acc := mk [] 0 0%float 0%float.

Definition count (a : acc) : Z := Z.of_nat (length (items a)).

(** Growth policy: double the capacity, or the initial capacity if it
    is zero. *)
Definition grown (c : Z) : Z :=
  if c =? 0 then INITIAL_CAPACITY else CAPACITY_GROWTH_FACTOR * c.

(** [insert]: [None] is the OutOfMemory failure, which leaves the
    accumulator as it was.  [can_allocate n] tells whether a buffer of
    [n] values can be had. *)
Definition insert (a : acc) (value : float) (can_allocate : Z -> bool)
  : option acc :=
  if count a =? cap a
  then
    if can_allocate (grown (cap a))
    then Some (mk (items a ++ [value]) (grown (cap a))
                  (sum a + value) (sumSquares a + value * value))
    else None
  else Some (mk (items a ++ [value]) (cap a)
                (sum a + value) (sumSquares a + value * value)).

Definition evict (a : acc) : float * acc :=
  match items a with
  | [] => (0%float, a)
  | value :: rest =>
      (value, mk rest (cap a) (sum a - value)
                 (sumSquares a - value * value))
  end.

(** The lazy first allocation on its own (a NULL row on the very first
    step triggers it without inserting). *)
Definition prepare (a : acc) (can_allocate : Z -> bool) : acc :=
  if (cap a =? 0) && can_allocate INITIAL_CAPACITY
  then mk (items a) INITIAL_CAPACITY (sum a) (sumSquares a)
  else a.

Definition variancePopulation (n : Z) (sum sumSquares : float) : float :=
  if n <? 1 then nan
  else
    let mean := (sum / double_of_Z n)%float in
    (sumSquares / double_of_Z n - mean * mean)%float.

Definition varianceSample (n : Z) (sum sumSquares : float) : float :=
  if n <? 2 then nan
  else
    let mean := (sum / double_of_Z n)%float in
    let popVar := (sumSquares / double_of_Z n - mean * mean)%float in
    (popVar * (double_of_Z n / double_of_Z (n - 1)))%float.

End Spec.

(** Whether [malloc] answers a request for [n] doubles. *)
Definition can_allocate (h : heap_reply) (n : Z) : bool :=
  granted h && (n * sizeof_double <=? PTRDIFF_MAX).

Definition numeric (arg : sqlite3_value) : bool :=
  match sqlite3_value_type arg with
  | SQLITE_INTEGER | SQLITE_FLOAT => true
  | _ => false
  end.

(** The aggregate's memory as [sqlite3_aggregate_context] leaves it in
    [stats_step] ([None]: the aggregate has no memory). *)
Definition attach (m : option Spec.acc) (env : step_env) : option Spec.acc :=
  match m with
  | Some a => Some a
  | None => if agg_ok env then Some Spec.empty else None
  end.

(** What a callback does to the specification's accumulator. *)
Definition model_call (c : call) (m : option Spec.acc) : option Spec.acc :=
  match c with
  | Step arg env =>
      match attach m env with
      | None => None
      | Some a =>
          if numeric arg
          then
            match Spec.insert a (sqlite3_value_double arg)
                              (can_allocate (heap env)) with
            | Some a' => Some a'
            | None => Some a
            end
          else Some (Spec.prepare a (can_allocate (heap env)))
      end
  | Inverse arg =>
      match m with
      | None => None
      | Some a =>
          match sqlite3_value_type arg with
          | SQLITE_NULL => Some a
          | _ => Some (snd (Spec.evict a))
          end
      end
  end.

Fixpoint model_run (cs : list call) (m : option Spec.acc)
  : option Spec.acc :=
  match cs with
  | [] => m
  | c :: cs' => model_run cs' (model_call c m)
  end.

(** The context [c] implements the specification's accumulator [m]. *)
Definition refines (c : sqlite3_context) (m : option Spec.acc) : Prop :=
  match pAgg c, m with
  | None, None => True
  | Some d, Some a =>
      holds d (Spec.items a) /\
      sum d = Spec.sum a /\
      sum_sq d = Spec.sumSquares a /\
      match values d with
      | None => Spec.cap a = 0
      | Some _ => capacity d = Spec.cap a
      end
  | _, _ => False
  end.

(** ** Exact arithmetic

    The rational number a finite double stands for, and the test that one
    floating-point operation was performed without rounding or overflow. *)

Definition F2Q (x : float) : Q :=
  match Prim2SF x with
  | S754_finite s m e =>
      ((if s then -1 else 1) * inject_Z (Zpos m) * (2 # 1) ^ e)%Q
  | _ => 0%Q
  end.

Definition exact_add (a b : float) : bool :=
  is_finite (a + b) && Qeq_bool (F2Q (a + b)) (F2Q a + F2Q b).
Definition exact_sub (a b : float) : bool :=
  is_finite (a - b) && Qeq_bool (F2Q (a - b)) (F2Q a - F2Q b).
Definition exact_mul (a b : float) : bool :=
  is_finite (a * b) && Qeq_bool (F2Q (a * b)) (F2Q a * F2Q b).

Definition Qsum (l : list Q) : Q := foldr Qplus 0%Q l.

(** The exact sum and sum of squares of a list of doubles. *)
Definition true_sum (l : list float) : Q := Qsum (F2Q <$> l).
Definition true_sum_squares (l : list float) : Q :=
  Qsum ((fun x => F2Q x * F2Q x)%Q <$> l).

(** Whether every floating-point update of [sum] and [sum_sq] that the
    call performs is exact. *)
Definition exact_call (c : call) (m : option Spec.acc) : bool :=
  match c with
  | Step arg env =>
      match attach m env with
      | None => true
      | Some a =>
          let v := sqlite3_value_double arg in
          if numeric arg
          then
            match Spec.insert a v (can_allocate (heap env)) with
            | Some _ =>
                exact_add (Spec.sum a) v && exact_mul v v
                && exact_add (Spec.sumSquares a) (v * v)
            | None => true
            end
          else true
      end
  | Inverse arg =>
      match m with
      | None => true
      | Some a =>
          match sqlite3_value_type arg, Spec.items a with
          | SQLITE_NULL, _ => true
          | _, [] => true
          | _, x :: _ =>
              exact_sub (Spec.sum a) x && exact_mul x x
              && exact_sub (Spec.sumSquares a) (x * x)
          end
      end
  end.

Fixpoint exact_run (cs : list call) (m : option Spec.acc) : bool :=
  match cs with
  | [] => true
  | c :: cs' => exact_call c m && exact_run cs' (model_call c m)
  end.

(** The context right after [sqlite3_aggregate_context] has handed out the
    zero-filled accumulator: the initial empty state. *)
Definition initial_context : sqlite3_context :=
  mkContext (Some zero_stats) ResultUnset.

(** The sum and the sum of squares recomputed from the live values, in
    double arithmetic, oldest value first. *)
Definition fresh_sum (l : list float) : float :=
  foldl (fun s x => (s + x)%float) 0%float l.
Definition fresh_sum_squares (l : list float) : float :=
  foldl (fun s x => (s + x * x)%float) 0%float l.

(** A result slot holds no value, or a finite one. *)
Definition null_or_finite (r : sql_result) : Prop :=
  match r with
  | ResultNull => True
  | ResultDouble x => is_finite x = true
  | _ => False
  end.

(** The running aggregates of the specification's accumulator are the true
    sums of its live values. *)
Definition aggregates_exact (m : option Spec.acc) : Prop :=
  match m with
  | None => True
  | Some a =>
      (F2Q (Spec.sum a) == true_sum (Spec.items a))%Q /\
      (F2Q (Spec.sumSquares a) == true_sum_squares (Spec.items a))%Q
  end.

(** The rows 1, 2, ..., [n] entering the frame, as INTEGER values. *)
Definition first_rows (n : nat) : list call :=
  (fun i => Step (SqlInteger (Z.of_nat i)) plenty) <$> seq 1 n.

(** ** Teardown (lines 255-261)

    [free] gives the block back; what is left of it in the model is that
    [values] is NULL afterwards. *)
Definition stats_destroy (pAggregate : option WindowStatsData)
  : option WindowStatsData :=
  match pAggregate with
  | Some ctx =>
      match values ctx with
      | Some _ =>
          Some (mkStats None (count ctx) (capacity ctx) (head ctx) (tail ctx)
                        (sum ctx) (sum_sq ctx))
      | None => Some ctx
      end
  | None => None
  end.

Definition is_step (k : call) : bool :=
  match k with
  | Step _ _ => true
  | Inverse _ => false
  end.

(** The capacities the code ever sets: [INITIAL_CAPACITY] doubled some
    number of times once the buffer exists; before that, zero or the
    [INITIAL_CAPACITY] of a refused first allocation. *)
Definition capacity_shape (d : WindowStatsData) : Prop :=
  match values d with
  | None => capacity d = 0 \/ capacity d = INITIAL_CAPACITY
  | Some _ => exists n : nat, capacity d = INITIAL_CAPACITY * 2 ^ Z.of_nat n
  end.

(** The row of a call is NULL. *)
Definition null_row (k : call) : bool :=
  match k with
  | Step arg _ | Inverse arg =>
      match sqlite3_value_type arg with
      | SQLITE_NULL => true
      | _ => false
      end
  end.

(** [malloc] is willing during the call (only steps allocate). *)
Definition call_granted (k : call) : bool :=
  match k with
  | Step _ env => granted (heap env)
  | Inverse _ => true
  end.

(** What the statistics are computed from. *)
Definition logical (a : Spec.acc) : list float * float * float :=
  (Spec.items a, Spec.sum a, Spec.sumSquares a).

(** ** Registration (lines 406-474)

    SQLite's function table is outside the repository.  A database is
    modelled by the window functions it has accepted, oldest first, and
    one run of the registration by what SQLite answers to
    [sqlite3_create_window_function] for a name ([create_reply], 0 being
    SQLITE_OK) and by whether [malloc] grants a name buffer of a given
    size ([name_alloc]). *)

Definition rc_code (rc : sqlite_rc) : Z :=
  match rc with
  | SQLITE_OK => 0
  | SQLITE_NOMEM => 7
  end.

Definition SQLITE_UTF8 : Z := 1.
Definition SQLITE_DETERMINISTIC : Z := 2048.
Definition SQLITE_INNOCUOUS : Z := 2097152.

Record window_function : Type := mkFunction {
  wf_name : string;
  wf_nArg : Z;
  wf_flags : Z;
  wf_xStep : sqlite3_context -> list sqlite3_value -> step_env
             -> option sqlite3_context;
  wf_xFinal : sqlite3_context -> sqlite3_context;
  wf_xValue : sqlite3_context -> sqlite3_context;
  wf_xInverse : sqlite3_context -> list sqlite3_value
                -> option sqlite3_context;
  wf_xDestroy : option WindowStatsData -> option WindowStatsData
}.

Definition sqlite3 : Type := list window_function.

Record registrar : Type := mkRegistrar {
  create_reply : string -> Z;
  name_alloc : Z -> bool
}.

Definition sqlite3_create_window_function (db : sqlite3)
    (f : window_function) (env : registrar) : Z * sqlite3 :=
  let rc := create_reply env (wf_name f) in
  if rc =? rc_code SQLITE_OK then (rc, db ++ [f]) else (rc, db).

Record StatsFunctionGroup : Type := mkGroup {
  names : list string;
  xValue : sqlite3_context -> sqlite3_context;
  xFinal : sqlite3_context -> sqlite3_context
}.

(** [toupper] in the C locale. *)
Definition toupper (ch : ascii) : ascii :=
  let n := N_of_ascii ch in
  if ((97 <=? n) && (n <=? 122))%N then ascii_of_N (n - 32) else ch.

(** The loop that fills [upper_name] (lines 421-424). *)
Fixpoint upper_name (name : string) : string :=
  match name with
  | EmptyString => EmptyString
  | String ch rest => String (toupper ch) (upper_name rest)
  end.

(** The function [register_stats_function_group] registers under [name]. *)
Definition stats_function (group : StatsFunctionGroup) (name : string)
  : window_function :=
  mkFunction name 1
             (Z.lor (Z.lor SQLITE_UTF8 SQLITE_DETERMINISTIC) SQLITE_INNOCUOUS)
             stats_step (xFinal group) (xValue group) stats_inverse
             stats_destroy.

(** The loop of [register_stats_function_group] over the names that are
    left. *)
Fixpoint register_names (db : sqlite3) (group : StatsFunctionGroup)
    (todo : list string) (env : registrar) : Z * sqlite3 :=
  match todo with
  | [] => (rc_code SQLITE_OK, db)
  | name :: rest =>
      let '(rc, db) :=
        sqlite3_create_window_function db (stats_function group name) env in
      if negb (rc =? rc_code SQLITE_OK) then (rc, db)
      else
        (* Create and register the uppercase version. *)
        let name_len := Z.of_nat (String.length name) in
        if negb (name_alloc env (size_wrap (name_len + 1)))
        then (rc_code SQLITE_NOMEM, db)
        else
          let '(rc, db) :=
            sqlite3_create_window_function
              db (stats_function group (upper_name name)) env in
          if negb (rc =? rc_code SQLITE_OK) then (rc, db)
          else register_names db group rest env
  end.

Definition register_stats_function_group (db : sqlite3)
    (group : StatsFunctionGroup) (env : registrar) : Z * sqlite3 :=
  register_names db group (names group) env.

Definition stddev_samp_names : list string :=
  ["stddev_samp"; "stddev_sample"; "stdev_samp"; "stdev_sample"; "stddev";
   "stdev"; "std_dev"; "standard_deviation"]%string.
Definition stddev_pop_names : list string :=
  ["stddev_pop"; "stddev_population"; "stdev_pop"; "stdev_population"]%string.
Definition variance_samp_names : list string :=
  ["variance_samp"; "variance_sample"; "var_samp"; "var_sample"; "variance";
   "var"]%string.
Definition variance_pop_names : list string :=
  ["variance_pop"; "variance_population"; "var_pop";
   "var_population"]%string.

Definition functions_to_register : list StatsFunctionGroup :=
  [mkGroup stddev_samp_names stddev_samp_value stddev_samp_final;
   mkGroup stddev_pop_names stddev_pop_value stddev_pop_final;
   mkGroup variance_samp_names variance_samp_value variance_samp_final;
   mkGroup variance_pop_names variance_pop_value variance_pop_final].

(** The loop of [sqlite3_extension_init] over the groups that are left. *)
Fixpoint register_groups (db : sqlite3) (groups : list StatsFunctionGroup)
    (env : registrar) : Z * sqlite3 :=
  match groups with
  | [] => (rc_code SQLITE_OK, db)
  | group :: rest =>
      let '(rc, db) := register_stats_function_group db group env in
      if negb (rc =? rc_code SQLITE_OK) then (rc, db)
      else register_groups db rest env
  end.

Definition sqlite3_extension_init (db : sqlite3) (env : registrar)
  : Z * sqlite3 :=
  register_groups db functions_to_register env.

(** What a group registers when nothing fails: each name, then its
    uppercase version. *)
Definition group_functions (group : StatsFunctionGroup)
    (todo : list string) : list window_function :=
  todo ≫= fun name =>
    [stats_function group name; stats_function group (upper_name name)].

(** An SQLite that accepts every function, with memory for every name. *)
Definition willing : registrar := mkRegistrar (fun _ => 0) (fun _ => true).

(** What [register_names] needs of SQLite and of [malloc] for one name. *)
Definition name_accepted (env : registrar) (name : string) : Prop :=
  create_reply env name = 0 /\
  name_alloc env (size_wrap (Z.of_nat (String.length name) + 1)) = true /\
  create_reply env (upper_name name) = 0.

(** Everything [sqlite3_extension_init] registers when nothing fails. *)
Definition all_functions : list window_function :=
  functions_to_register ≫= fun group => group_functions group (names group).

(** * Proofs *)

(** ** The scenarios of the specification, evaluated *)

Example one_value_has_no_sample_variance :
  (c ← run [enter 5%float] initial_context;
   Some (result (variance_samp_value c), result (variance_pop_value c)))
  = Some (ResultNull, ResultDouble 0%float).
Proof. vm_compute. reflexivity. Qed.

Example two_equal_values :
  (c ← run [enter 5%float; enter 5%float] initial_context;
   Some (result (variance_samp_value c), result (stddev_samp_value c)))
  = Some (ResultDouble 0%float, ResultDouble 0%float).
Proof. vm_compute. reflexivity. Qed.

Example five_values_one_evicted :
  (c ← run (map enter [1; 2; 3; 4; 5]%float ++ [leave]) initial_context;
   d ← pAgg c;
   Some (live d, count d, head d, tail d, sum d, sum_sq d,
         calculate_variance_population d))
  = Some (Some [2; 3; 4; 5]%float, 4, 1, 5, 14%float, 54%float, 1.25%float).
Proof. vm_compute. reflexivity. Qed.

Example first_insert_allocates_initial_capacity :
  (c ← stats_step initial_context [SqlFloat 7%float] plenty;
   d ← pAgg c;
   Some (capacity d, length <$> values d, count d, head d, tail d))
  = Some (100, Some 100%nat, 1, 0, 1).
Proof. vm_compute. reflexivity. Qed.

Example growth_at_101_rows :
  (c ← run (first_rows 101) initial_context;
   d ← pAgg c;
   Some (capacity d, length <$> values d, count d, head d, tail d,
         fst <$> drain 3 d))
  = Some (200, Some 200%nat, 101, 0, 101, Some [1; 2; 3]%float).
Proof. vm_compute. reflexivity. Qed.

(** ** Machine arithmetic *)

Lemma size_wrap_small (z : Z) : 0 <= z < 2 ^ 64 -> size_wrap z = z.
Proof. intros H. unfold size_wrap, SIZE_WIDTH. by apply Z.mod_small. Qed.

Lemma MAX_CAPACITY_eq : MAX_CAPACITY = 2 ^ 60 - 1.
Proof. reflexivity. Qed.

Lemma mod_shift_distinct (h i j n : Z) :
  0 <= i < j -> j - i < n ->
  (h + i) mod n <> (h + j) mod n.
Proof.
  intros Hij Hn E.
  assert (Hn0 : 0 < n) by lia.
  assert (Hd : (n | (h + j) - (h + i))).
  { apply Z.mod_divide; [lia|].
    rewrite Zminus_mod, E, Z.sub_diag. by apply Z.mod_0_l; lia. }
  destruct Hd as [k Hk].
  assert (0 < k * n < n) by lia.
  assert (0 < k) by nia.
  nia.
Qed.

Lemma mod_succ_shift (h i n : Z) :
  0 < n -> ((h + 1) mod n + i) mod n = (h + (i + 1)) mod n.
Proof.
  intros Hn. rewrite Z.add_mod_idemp_l by lia. f_equal. lia.
Qed.

(** ** Reading and writing a block *)

Lemma load_lookup (buf : list float) (i : Z) :
  0 <= i -> load buf i = buf !! Z.to_nat i.
Proof. intros H. unfold load. by rewrite (proj2 (Z.leb_le 0 i) H). Qed.

Lemma store_in_range (buf : list float) (i : Z) (v : float) :
  0 <= i < Z.of_nat (length buf) ->
  store buf i v = Some (<[Z.to_nat i := v]> buf).
Proof.
  intros [H0 H1]. unfold store.
  by rewrite (proj2 (Z.leb_le 0 i) H0), (proj2 (Z.ltb_lt _ _) H1).
Qed.

Lemma store_Some (buf buf' : list float) (i : Z) (v : float) :
  store buf i v = Some buf' ->
  0 <= i < Z.of_nat (length buf) /\ buf' = <[Z.to_nat i := v]> buf.
Proof.
  unfold store. destruct (0 <=? i) eqn:E0; [|discriminate].
  destruct (i <? Z.of_nat (length buf)) eqn:E1; [|discriminate].
  simpl. intros [= <-]. apply Z.leb_le in E0. apply Z.ltb_lt in E1. done.
Qed.

(** ** The logical contents *)

Lemma get_circular_value_in (d : WindowStatsData) (buf : list float) (i : Z) :
  values d = Some buf ->
  0 < capacity d <= MAX_CAPACITY ->
  0 <= head d < capacity d ->
  0 <= i <= capacity d ->
  get_circular_value d i = buf !! Z.to_nat ((head d + i) mod capacity d).
Proof.
  intros Hv Hc Hh Hi. unfold get_circular_value.
  rewrite MAX_CAPACITY_eq in Hc.
  destruct (capacity d =? 0) eqn:E; [apply Z.eqb_eq in E; lia|].
  rewrite Hv, size_wrap_small by lia.
  apply load_lookup. apply Z.mod_pos_bound. lia.
Qed.

Lemma holds_length (d : WindowStatsData) (l : list float) :
  holds d l -> Z.of_nat (length l) = count d.
Proof. by intros [H _]. Qed.

Lemma live_of_holds (d : WindowStatsData) (l : list float) :
  holds d l -> live d = Some l.
Proof.
  intros [Hlen H]. unfold live. apply mapM_Some.
  apply Forall2_same_length_lookup_2.
  { rewrite length_fmap, length_seq. lia. }
  intros i z x Hz Hx.
  rewrite list_lookup_fmap in Hz.
  destruct (seq 0 (Z.to_nat (count d)) !! i) as [k|] eqn:Hk; [|discriminate].
  apply lookup_seq in Hk as [-> Hlt]. simpl in Hz. injection Hz as <-.
  destruct (values d) as [buf|] eqn:Hv.
  - destruct H as (Hb & Hcap & (Hc & Hh & Ht) & Hl).
    rewrite (get_circular_value_in d buf) by (done || lia).
    by apply Hl.
  - destruct H as (Hc & _). lia.
Qed.

Lemma holds_unique (d : WindowStatsData) (l l' : list float) :
  holds d l -> holds d l' -> l = l'.
Proof.
  intros H H'. apply live_of_holds in H, H'. congruence.
Qed.

(** ** The buffer operations on a well-formed accumulator *)

Lemma holds_no_buffer (d : WindowStatsData) (l : list float) :
  holds d l -> values d = None -> l = [] /\ count d = 0.
Proof.
  intros [Hlen H] Hv. rewrite Hv in H. destruct H as (Hc & _).
  split; [|done]. destruct l; [done|]. simpl in Hlen. lia.
Qed.

Lemma add_holds (d : WindowStatsData) (l : list float) (v : float) :
  holds d l -> values d <> None -> count d < capacity d ->
  exists d',
    add_to_circular_buffer d v = Some d' /\
    holds d' (l ++ [v]) /\
    sum d' = sum d /\ sum_sq d' = sum_sq d /\
    capacity d' = capacity d /\ values d' <> None.
Proof.
  intros [Hlen H] Hv Hroom.
  destruct (values d) as [buf|] eqn:Ev; [clear Hv|done].
  destruct H as (Hb & Hcap & (Hc & Hh & Ht) & Hl).
  pose proof MAX_CAPACITY_eq as HM.
  assert (Htr : 0 <= tail d < capacity d).
  { rewrite Ht. apply Z.mod_pos_bound. lia. }
  unfold add_to_circular_buffer. rewrite Ev.
  rewrite store_in_range by lia.
  destruct (capacity d =? 0) eqn:E0; [apply Z.eqb_eq in E0; lia|].
  eexists. split; [reflexivity|].
  rewrite !size_wrap_small by lia.
  split; [|by simpl].
  split; simpl.
  { rewrite length_app. simpl. lia. }
  split; [by rewrite length_insert|].
  split; [done|].
  split.
  { unfold buffer_invariant; simpl. split; [lia|]. split; [done|].
    rewrite Ht, Z.add_mod_idemp_l by lia. f_equal. lia. }
  intros i x Hi.
  destruct (decide (i < length l)%nat) as [Hlt|Hge].
  - rewrite lookup_app_l in Hi by done.
    rewrite list_lookup_insert_ne; [by apply Hl|].
    assert (Hne : (head d + Z.of_nat i) mod capacity d <> tail d).
    { rewrite Ht. apply mod_shift_distinct; lia. }
    pose proof (Z.mod_pos_bound (head d + Z.of_nat i) (capacity d)).
    lia.
  - assert (Hx : (l ++ [v]) !! i = Some x) by done.
    apply lookup_lt_Some in Hx. rewrite length_app in Hx. simpl in Hx.
    assert (i = length l) as -> by lia.
    rewrite list_lookup_middle in Hi by done. injection Hi as <-.
    rewrite Hlen, <- Ht. apply list_lookup_insert_eq. lia.
Qed.

Lemma remove_holds (d : WindowStatsData) (x : float) (l : list float) :
  holds d (x :: l) ->
  exists d',
    remove_from_circular_buffer d = Some (x, d') /\
    holds d' l /\
    sum d' = sum d /\ sum_sq d' = sum_sq d /\
    capacity d' = capacity d /\ values d' = values d /\
    values d <> None.
Proof.
  intros [Hlen H]. simpl in Hlen.
  destruct (values d) as [buf|] eqn:Ev; [|lia].
  destruct H as (Hb & Hcap & (Hc & Hh & Ht) & Hl).
  pose proof MAX_CAPACITY_eq as HM.
  unfold remove_from_circular_buffer.
  destruct (count d =? 0) eqn:E0; [apply Z.eqb_eq in E0; lia|].
  rewrite Ev, load_lookup by lia.
  pose proof (Hl 0%nat x eq_refl) as H0.
  rewrite Z.add_0_r, Z.mod_small in H0 by lia. rewrite H0.
  destruct (capacity d =? 0) eqn:E1; [apply Z.eqb_eq in E1; lia|].
  eexists. split; [reflexivity|].
  rewrite !size_wrap_small by lia.
  split; [|by simpl].
  assert (Hh' : 0 <= (head d + 1) mod capacity d < capacity d).
  { apply Z.mod_pos_bound. lia. }
  split; simpl; [lia|].
  split; [done|]. split; [done|].
  split.
  { unfold buffer_invariant; simpl. split; [lia|]. split; [done|].
    rewrite Ht, Z.add_mod_idemp_l by lia. f_equal. lia. }
  intros i y Hi.
  rewrite mod_succ_shift by lia.
  replace (Z.of_nat i + 1) with (Z.of_nat (S i)) by lia.
  by apply Hl.
Qed.

Lemma remove_empty (d : WindowStatsData) :
  count d = 0 -> remove_from_circular_buffer d = Some (0%float, d).
Proof. intros H. unfold remove_from_circular_buffer. by rewrite H. Qed.

Lemma malloc_length (h : heap_reply) (bytes : Z) (blk : list float) :
  malloc h bytes = Some blk ->
  length blk = Z.to_nat (bytes / sizeof_double).
Proof.
  unfold malloc. destruct (granted h && (bytes <=? PTRDIFF_MAX)); [|done].
  intros [= <-]. by rewrite length_fmap, length_seq.
Qed.

Lemma malloc_can_allocate (h : heap_reply) (n : Z) :
  0 <= n -> n * sizeof_double < 2 ^ 64 ->
  can_allocate h n = true ->
  exists blk, malloc h (size_wrap (n * sizeof_double)) = Some blk /\
              Z.of_nat (length blk) = n.
Proof.
  intros Hn Hs Hc. unfold sizeof_double in *.
  rewrite size_wrap_small by lia.
  unfold can_allocate, sizeof_double in Hc. unfold malloc. rewrite Hc.
  eexists. split; [reflexivity|].
  rewrite length_fmap, length_seq. unfold sizeof_double.
  rewrite Z.div_mul by lia. lia.
Qed.

Lemma malloc_cannot_allocate (h : heap_reply) (n : Z) :
  0 <= n -> n * sizeof_double < 2 ^ 64 ->
  can_allocate h n = false ->
  malloc h (size_wrap (n * sizeof_double)) = None.
Proof.
  intros Hn Hs Hc. unfold sizeof_double in *.
  rewrite size_wrap_small by lia.
  unfold can_allocate, sizeof_double in Hc. unfold malloc. by rewrite Hc.
Qed.

Lemma init_granted (d : WindowStatsData) (h : heap_reply) :
  can_allocate h INITIAL_CAPACITY = true ->
  exists d',
    init_window_stats_data d h = (SQLITE_OK, d') /\
    holds d' [] /\ values d' <> None /\
    capacity d' = INITIAL_CAPACITY /\
    count d' = 0 /\ head d' = 0 /\ tail d' = 0 /\
    sum d' = 0%float /\ sum_sq d' = 0%float.
Proof.
  intros Hc.
  destruct (malloc_can_allocate h INITIAL_CAPACITY) as (blk & Hm & Hlen);
    [done..|].
  unfold init_window_stats_data. simpl. rewrite Hm.
  eexists. split; [reflexivity|]. simpl.
  split; [|done].
  split; [done|]. simpl.
  split; [done|]. split; [done|]. split; [|by intros [|]].
  unfold buffer_invariant. simpl. done.
Qed.

Lemma init_refused (d : WindowStatsData) (h : heap_reply) :
  can_allocate h INITIAL_CAPACITY = false ->
  init_window_stats_data d h =
  (SQLITE_NOMEM,
   mkStats None (count d) INITIAL_CAPACITY (head d) (tail d)
           (sum d) (sum_sq d)).
Proof.
  intros Hc. unfold init_window_stats_data. simpl.
  by rewrite (malloc_cannot_allocate h INITIAL_CAPACITY).
Qed.

Lemma copy_values_spec (d : WindowStatsData) (l buf : list float) :
  holds d l -> values d = Some buf ->
  forall (n : nat) (i : nat) (blk : list float),
    Z.of_nat n + Z.of_nat i = count d ->
    count d <= Z.of_nat (length blk) ->
    exists blk',
      copy_values d n (Z.of_nat i) blk = Some blk' /\
      length blk' = length blk /\
      (forall (j : nat) x, l !! j = Some x -> (i <= j)%nat ->
                           blk' !! j = Some x) /\
      (forall j : nat, (j < i)%nat -> blk' !! j = blk !! j).
Proof.
  intros [Hlen H] Ev. rewrite Ev in H.
  destruct H as (Hb & Hcap & (Hc & Hh & Ht) & Hl).
  induction n as [|n IH]; intros i blk Hn Hblk; simpl.
  - exists blk. split; [done|]. split; [done|]. split; [|done].
    intros j x Hj Hij. apply lookup_lt_Some in Hj. lia.
  - destruct (lookup_lt_is_Some_2 l i) as [v Hv]; [lia|].
    rewrite (get_circular_value_in d buf) by (done || lia).
    rewrite (Hl i v Hv).
    rewrite store_in_range by lia.
    rewrite Nat2Z.id.
    destruct (IH (S i) (<[i:=v]> blk)) as (blk' & Hcp & Hl' & Hhi & Hlo).
    { lia. }
    { rewrite length_insert. lia. }
    replace (Z.of_nat i + 1) with (Z.of_nat (S i)) by lia.
    exists blk'. split; [done|].
    split; [by rewrite Hl', length_insert|].
    split.
    + intros j x Hj Hij.
      destruct (decide (j = i)) as [->|Hne].
      * rewrite Hlo by lia.
        rewrite list_lookup_insert_eq by lia. congruence.
      * apply Hhi; [done|lia].
    + intros j Hj. rewrite Hlo by lia.
      apply list_lookup_insert_ne. lia.
Qed.

Lemma grow_granted (d : WindowStatsData) (l : list float) (h : heap_reply) :
  holds d l -> values d <> None ->
  can_allocate h (CAPACITY_GROWTH_FACTOR * capacity d) = true ->
  exists d' buf',
    grow_stats_buffer d h = Some (SQLITE_OK, d') /\
    holds d' l /\
    values d' = Some buf' /\
    Z.of_nat (length buf') = CAPACITY_GROWTH_FACTOR * capacity d /\
    capacity d' = CAPACITY_GROWTH_FACTOR * capacity d /\
    head d' = 0 /\ tail d' = count d /\ count d' = count d /\
    sum d' = sum d /\ sum_sq d' = sum_sq d /\
    (forall (i : nat) x, l !! i = Some x -> buf' !! i = Some x).
Proof.
  intros Hh Hv Hc.
  destruct (values d) as [buf|] eqn:Ev; [clear Hv|done].
  pose proof Hh as [Hlen H]. rewrite Ev in H.
  destruct H as (Hb & Hcap & (Hcnt & Hhd & Ht) & Hl).
  pose proof MAX_CAPACITY_eq as HM.
  unfold CAPACITY_GROWTH_FACTOR in *.
  assert (Hsmall : 2 * capacity d <= MAX_CAPACITY).
  { unfold can_allocate in Hc. apply andb_prop in Hc as [_ Hc].
    apply Z.leb_le in Hc. unfold sizeof_double, PTRDIFF_MAX in Hc. lia. }
  destruct (malloc_can_allocate h (2 * capacity d)) as (blk & Hm & Hblk);
    [lia|unfold sizeof_double; lia|done|].
  destruct (copy_values_spec d l buf Hh Ev (Z.to_nat (count d)) 0%nat blk)
    as (buf' & Hcp & Hl' & Hhi & _); [lia|lia|].
  unfold grow_stats_buffer, CAPACITY_GROWTH_FACTOR.
  rewrite (size_wrap_small (capacity d * 2)) by lia.
  replace (capacity d * 2) with (2 * capacity d) by lia.
  rewrite Hm. change (Z.of_nat 0) with 0 in Hcp. rewrite Hcp.
  exists (mkStats (Some buf') (count d) (2 * capacity d) 0 (count d)
                  (sum d) (sum_sq d)), buf'.
  split; [done|]. simpl.
  split.
  { split; [done|]. simpl.
    split; [lia|]. split; [lia|]. split.
    - unfold buffer_invariant. simpl. split; [lia|]. split; [lia|].
      rewrite Z.mod_small; lia.
    - intros i x Hi. pose proof (lookup_lt_Some _ _ _ Hi).
      rewrite Z.add_0_l, Z.mod_small, Nat2Z.id by lia.
      apply Hhi; [done|lia]. }
  split; [done|]. split; [lia|].
  repeat (split; [done|]).
  intros i x Hi. apply Hhi; [done|lia].
Qed.

Lemma grow_refused (d : WindowStatsData) (l : list float) (h : heap_reply) :
  holds d l -> values d <> None ->
  can_allocate h (CAPACITY_GROWTH_FACTOR * capacity d) = false ->
  grow_stats_buffer d h = Some (SQLITE_NOMEM, d).
Proof.
  intros Hh Hv Hc.
  destruct (values d) as [buf|] eqn:Ev; [clear Hv|done].
  destruct Hh as [Hlen H]. rewrite Ev in H.
  destruct H as (Hb & Hcap & (Hcnt & Hhd & Ht) & Hl).
  pose proof MAX_CAPACITY_eq as HM.
  unfold CAPACITY_GROWTH_FACTOR in *.
  unfold grow_stats_buffer, CAPACITY_GROWTH_FACTOR.
  rewrite (size_wrap_small (capacity d * 2)) by lia.
  replace (capacity d * 2) with (2 * capacity d) by lia.
  rewrite (malloc_cannot_allocate h (2 * capacity d));
    [done|lia|unfold sizeof_double; lia|done].
Qed.

(** ** The callbacks implement the specification's accumulator *)

Lemma make_room (d : WindowStatsData) (l : list float) (h : heap_reply) :
  holds d l -> values d <> None ->
  (count d = capacity d /\
   can_allocate h (CAPACITY_GROWTH_FACTOR * capacity d) = false /\
   (if capacity d <=? count d then grow_stats_buffer d h
    else Some (SQLITE_OK, d)) = Some (SQLITE_NOMEM, d))
  \/
  (exists d1,
     (if capacity d <=? count d then grow_stats_buffer d h
      else Some (SQLITE_OK, d)) = Some (SQLITE_OK, d1) /\
     holds d1 l /\ values d1 <> None /\ count d1 < capacity d1 /\
     sum d1 = sum d /\ sum_sq d1 = sum_sq d /\
     ((count d = capacity d /\
       can_allocate h (CAPACITY_GROWTH_FACTOR * capacity d) = true /\
       capacity d1 = CAPACITY_GROWTH_FACTOR * capacity d)
      \/ (count d < capacity d /\ capacity d1 = capacity d))).
Proof.
  intros Hh Hv.
  assert (Hc : 0 < capacity d /\ 0 <= count d <= capacity d).
  { destruct Hh as [_ H]. destruct (values d); [|done].
    destruct H as (_ & _ & (? & ? & _) & _). lia. }
  destruct (capacity d <=? count d) eqn:E.
  - apply Z.leb_le in E.
    destruct (can_allocate h (CAPACITY_GROWTH_FACTOR * capacity d)) eqn:Ec.
    + right.
      destruct (grow_granted d l h Hh Hv Ec)
        as (d1 & buf' & Hg & Hh1 & Hv1 & _ & Hcap1 & _ & _ & Hcnt1 & Hs & Hq & _).
      exists d1. split; [done|]. split; [done|].
      split; [by rewrite Hv1|].
      unfold CAPACITY_GROWTH_FACTOR in *.
      split; [lia|]. split; [done|]. split; [done|].
      left. split; [lia|]. done.
    + left. split; [lia|]. split; [done|]. by apply (grow_refused d l).
  - apply Z.leb_gt in E. right. exists d.
    split; [done|]. split; [done|]. split; [done|].
    split; [lia|]. split; [done|]. split; [done|].
    right. done.
Qed.

Lemma refines_Some (d : WindowStatsData) (r : sql_result) (a : Spec.acc) :
  refines (mkContext (Some d) r) (Some a) <->
  holds d (Spec.items a) /\ sum d = Spec.sum a /\
  sum_sq d = Spec.sumSquares a /\
  match values d with
  | None => Spec.cap a = 0
  | Some _ => capacity d = Spec.cap a
  end.
Proof. done. Qed.

Lemma holds_capacity_pos (d : WindowStatsData) (l : list float) :
  holds d l -> values d <> None -> 0 < capacity d.
Proof.
  intros [_ H] Hv. destruct (values d); [|done].
  destruct H as (_ & _ & (? & ? & _) & _). lia.
Qed.

(** The part of [stats_step] after the lazy initialisation, on an
    accumulator that has its buffer. *)
Lemma step_with_buffer (d : WindowStatsData) (r : sql_result) (a : Spec.acc)
    (arg : sqlite3_value) (env : step_env) :
  values d <> None ->
  refines (mkContext (Some d) r) (Some a) ->
  exists c',
    stats_step (mkContext (Some d) r) [arg] env = Some c' /\
    refines c' (model_call (Step arg env) (Some a)).
Proof.
  intros Hv (Hh & Hs & Hq & Hcap).
  pose proof (holds_capacity_pos d _ Hh Hv) as Hpos.
  pose proof (holds_length d _ Hh) as Hlen.
  destruct (values d) as [buf|] eqn:Ev; [|done].
  assert (Hprep : Spec.prepare a (can_allocate (heap env)) = a).
  { unfold Spec.prepare.
    destruct (Spec.cap a =? 0) eqn:E; [apply Z.eqb_eq in E; lia|done]. }
  assert (Hnum : forall v : float,
    exists c',
      match (if capacity d <=? count d
             then grow_stats_buffer d (heap env)
             else Some (SQLITE_OK, d)) with
      | None => None
      | Some (SQLITE_NOMEM, ctx) =>
          Some (mkContext (Some ctx) ResultErrorNomem)
      | Some (SQLITE_OK, ctx) =>
          match add_to_circular_buffer ctx v with
          | None => None
          | Some ctx =>
              Some (mkContext
                      (Some (set_sums (sum ctx + v) (sum_sq ctx + v * v) ctx))
                      r)
          end
      end = Some c' /\
      refines c'
        (Some (match Spec.insert a v (can_allocate (heap env)) with
               | Some a' => a'
               | None => a
               end))).
  { intros v.
    assert (Hv' : values d <> None) by (by rewrite Ev).
    destruct (make_room d _ (heap env) Hh Hv')
      as [(Hfull & Hno & ->)|(d1 & -> & Hh1 & Hv1 & Hroom & Hs1 & Hq1 & Hc1)].
    - eexists. split; [reflexivity|].
      unfold Spec.insert, Spec.count, Spec.grown.
      rewrite Hlen, Hfull, Hcap, Z.eqb_refl.
      destruct (Spec.cap a =? 0) eqn:E; [apply Z.eqb_eq in E; lia|].
      rewrite <- Hcap, Hno. apply refines_Some. by rewrite Ev.
    - destruct (add_holds d1 _ v Hh1 Hv1 Hroom)
        as (d2 & -> & Hh2 & Hs2 & Hq2 & Hc2 & Hv2).
      eexists. split; [reflexivity|].
      unfold Spec.insert, Spec.count, Spec.grown.
      rewrite Hlen.
      destruct Hc1 as [(Hfull & Hyes & Hc1)|(Hnf & Hc1)].
      + rewrite Hfull, Hcap, Z.eqb_refl.
        destruct (Spec.cap a =? 0) eqn:E; [apply Z.eqb_eq in E; lia|].
        rewrite <- Hcap, Hyes. apply refines_Some. simpl.
        destruct (values d2) eqn:Ev2; [|done].
        split; [|split; [congruence|split; [congruence|congruence]]].
        destruct Hh2 as [Hl2 H2]. split; [done|]. simpl. by rewrite Ev2 in *.
      + destruct (count d =? Spec.cap a) eqn:E; [apply Z.eqb_eq in E; lia|].
        apply refines_Some. simpl.
        destruct (values d2) eqn:Ev2; [|done].
        split; [|split; [congruence|split; [congruence|congruence]]].
        destruct Hh2 as [Hl2 H2]. split; [done|]. simpl. by rewrite Ev2 in *. }
  unfold stats_step, sqlite3_aggregate_context. cbn [pAgg result].
  rewrite Ev. unfold model_call, attach.
  destruct arg as [|i|x| |]; cbn [sqlite3_value_type numeric sqlite3_value_double].
  - eexists. split; [reflexivity|]. rewrite Hprep. apply refines_Some.
    by rewrite Ev.
  - destruct (Hnum (double_of_Z i)) as (c' & Hc' & Hr). rewrite Hc'.
    exists c'. split; [done|].
    by destruct (Spec.insert a (double_of_Z i) (can_allocate (heap env))).
  - destruct (Hnum x) as (c' & Hc' & Hr). rewrite Hc'.
    exists c'. split; [done|].
    by destruct (Spec.insert a x (can_allocate (heap env))).
  - eexists. split; [reflexivity|]. rewrite Hprep. apply refines_Some.
    by rewrite Ev.
  - eexists. split; [reflexivity|]. rewrite Hprep. apply refines_Some.
    by rewrite Ev.
Qed.

Lemma holds_zero_stats : holds zero_stats [].
Proof. split; [done|]. simpl. done. Qed.

Lemma refines_fresh (r : sql_result) :
  refines (mkContext (Some zero_stats) r) (Some Spec.empty).
Proof. apply refines_Some. split; [apply holds_zero_stats|done]. Qed.

(** [stats_step] on an accumulator whose buffer does not exist yet. *)
Lemma step_without_buffer (d : WindowStatsData) (r : sql_result)
    (a : Spec.acc) (arg : sqlite3_value) (env : step_env) :
  values d = None ->
  refines (mkContext (Some d) r) (Some a) ->
  exists c',
    stats_step (mkContext (Some d) r) [arg] env = Some c' /\
    refines c' (model_call (Step arg env) (Some a)).
Proof.
  intros Ev (Hh & Hs & Hq & Hcap). rewrite Ev in Hcap.
  destruct (holds_no_buffer d _ Hh Ev) as [Hl Hc].
  pose proof Hh as [_ H0]. rewrite Ev in H0.
  destruct H0 as (_ & Hhd & Htl & Hs0 & Hq0).
  destruct (can_allocate (heap env) INITIAL_CAPACITY) eqn:Ec.
  - (* the buffer is allocated: the call continues on the initialised
       accumulator, which implements the prepared specification state *)
    destruct (init_granted d (heap env) Ec)
      as (d1 & Hi & Hh1 & Hv1 & Hc1 & Hn1 & _ & _ & Hs1 & Hq1).
    set (a1 := Spec.mk (Spec.items a) INITIAL_CAPACITY
                       (Spec.sum a) (Spec.sumSquares a)).
    assert (Hr1 : refines (mkContext (Some d1) r) (Some a1)).
    { apply refines_Some. unfold a1. simpl. rewrite Hl.
      destruct (values d1); [|done].
      split; [done|]. split; [congruence|]. split; [congruence|done]. }
    destruct (step_with_buffer d1 r a1 arg env Hv1 Hr1) as (c' & Hc' & Hr').
    exists c'. split.
    + revert Hc'. unfold stats_step, sqlite3_aggregate_context.
      cbn [pAgg result]. rewrite Ev, Hi.
      by destruct (values d1) eqn:Ev1.
    + revert Hr'. unfold model_call, attach.
      assert (Hp : Spec.prepare a (can_allocate (heap env)) = a1).
      { unfold Spec.prepare. by rewrite Hcap, Ec. }
      assert (Hp1 : Spec.prepare a1 (can_allocate (heap env)) = a1).
      { unfold Spec.prepare. done. }
      rewrite Hp, Hp1.
      destruct (numeric arg); [|done].
      unfold Spec.insert, Spec.count, Spec.grown. unfold a1 at 1 2 3. simpl.
      rewrite Hl, Hcap. simpl. by rewrite Ec.
  - unfold stats_step, sqlite3_aggregate_context. cbn [pAgg result].
    rewrite Ev, (init_refused d (heap env) Ec).
    eexists. split; [reflexivity|].
    assert (Hm : model_call (Step arg env) (Some a) = Some a).
    { unfold model_call, attach, Spec.prepare, Spec.insert, Spec.count,
        Spec.grown.
      rewrite Hl, Hcap. simpl. rewrite Ec.
      by destruct (numeric arg). }
    rewrite Hm. apply refines_Some. simpl.
    split; [|done]. split; [rewrite Hl; simpl; lia|]. simpl. done.
Qed.

Lemma step_refines (c : sqlite3_context) (m : option Spec.acc)
    (arg : sqlite3_value) (env : step_env) :
  refines c m ->
  exists c',
    stats_step c [arg] env = Some c' /\
    refines c' (model_call (Step arg env) m).
Proof.
  intros Hr. destruct c as [[d|] r], m as [a|]; try done.
  - destruct (values d) eqn:Ev.
    + apply step_with_buffer; [by rewrite Ev|done].
    + by apply step_without_buffer.
  - destruct (agg_ok env) eqn:Ea.
    + destruct (step_without_buffer zero_stats r Spec.empty arg env eq_refl
                  (refines_fresh r)) as (c' & Hc' & Hr').
      exists c'. split.
      * revert Hc'. unfold stats_step, sqlite3_aggregate_context.
        cbn [pAgg result]. by rewrite Ea.
      * revert Hr'. unfold model_call, attach. by rewrite Ea.
    + eexists. split.
      * unfold stats_step, sqlite3_aggregate_context.
        cbn [pAgg result]. rewrite Ea. simpl. reflexivity.
      * unfold model_call, attach. rewrite Ea. done.
Qed.

Lemma inverse_refines (c : sqlite3_context) (m : option Spec.acc)
    (arg : sqlite3_value) :
  refines c m ->
  exists c',
    stats_inverse c [arg] = Some c' /\
    refines c' (model_call (Inverse arg) m).
Proof.
  intros Hr. destruct c as [[d|] r], m as [a|]; try done.
  2:{ by exists (mkContext None r). }
  pose proof Hr as (Hh & Hs & Hq & Hcap).
  pose proof (holds_length d _ Hh) as Hlen.
  unfold stats_inverse, sqlite3_aggregate_context. cbn [pAgg result].
  assert (Hidle : Spec.items a = [] ->
                  model_call (Inverse arg) (Some a) = Some a).
  { intros E. unfold model_call, Spec.evict. rewrite E.
    by destruct (sqlite3_value_type arg). }
  destruct (values d) as [buf|] eqn:Ev.
  2:{ eexists. split; [reflexivity|].
      rewrite Hidle; [done|]. by apply (holds_no_buffer d). }
  destruct (count d <=? 0) eqn:E0.
  { apply Z.leb_le in E0. eexists. split; [reflexivity|].
    rewrite Hidle; [done|]. destruct (Spec.items a); [done|].
    simpl in Hlen. lia. }
  apply Z.leb_gt in E0.
  destruct (Spec.items a) as [|x rest] eqn:Ei; [simpl in Hlen; lia|].
  destruct (remove_holds d x rest Hh)
    as (d' & Hrm & Hh' & Hs' & Hq' & Hc' & Hv' & _).
  assert (Hgo : exists c',
    match remove_from_circular_buffer d with
    | None => None
    | Some (removed_value, ctx) =>
        Some (mkContext
                (Some (set_sums (sum ctx - removed_value)
                                (sum_sq ctx - removed_value * removed_value)
                                ctx)) r)
    end = Some c' /\
    refines c' (Some (snd (Spec.evict a)))).
  { rewrite Hrm. eexists. split; [reflexivity|].
    unfold Spec.evict. rewrite Ei. apply refines_Some. simpl.
    rewrite Hv', Ev.
    split; [|split; [congruence|split; [congruence|congruence]]].
    destruct Hh' as [Hl' H']. split; [done|]. simpl. by rewrite Hv', Ev in *. }
  unfold model_call.
  destruct arg as [|i|y| |]; cbn [sqlite3_value_type]; try exact Hgo.
  eexists. split; [reflexivity|]. done.
Qed.

Lemma call_refines (k : call) (c : sqlite3_context) (m : option Spec.acc) :
  refines c m ->
  exists c', do_call k c = Some c' /\ refines c' (model_call k m).
Proof.
  destruct k as [arg env|arg]; simpl.
  - apply step_refines.
  - apply inverse_refines.
Qed.

Lemma run_refines (cs : list call) (c : sqlite3_context)
    (m : option Spec.acc) :
  refines c m ->
  exists c', run cs c = Some c' /\ refines c' (model_run cs m).
Proof.
  revert c m. induction cs as [|k cs IH]; intros c m Hr; simpl.
  - by exists c.
  - destruct (call_refines k c m Hr) as (c1 & -> & Hr1).
    by apply IH.
Qed.

Lemma refines_fresh_context : refines fresh_context None.
Proof. done. Qed.

(** ** Doubles: the facts about IEEE arithmetic that are used *)

Lemma is_finite_SF (x : float) :
  is_finite x =
  match Prim2SF x with
  | S754_zero _ | S754_finite _ _ _ => true
  | _ => false
  end.
Proof.
  unfold is_finite, is_nan, is_infinity.
  rewrite !FloatAxioms.eqb_spec, abs_spec.
  change (Prim2SF infinity) with (S754_infinity false).
  destruct (Prim2SF x) as [s| [|] | |s m e]; try reflexivity.
  unfold SFeqb, SFcompare, SFabs.
  rewrite Z.compare_refl.
  fold (Pos.compare m m). rewrite Pos.compare_refl.
  by destruct s.
Qed.

Lemma finite_add_sub_cancel (x : float) :
  is_finite x = true -> (0 + x - x)%float = 0%float.
Proof.
  rewrite is_finite_SF. intros H. apply Prim2SF_inj.
  rewrite sub_spec, add_spec.
  change (Prim2SF 0) with (S754_zero false).
  destruct (Prim2SF x) as [[|]| | |s m e]; try done.
  unfold SF64add, SF64sub, SFadd, SFsub.
  rewrite Z.sub_diag. reflexivity.
Qed.

Lemma finite_square (x : float) :
  is_finite (x * x) = true -> is_finite x = true.
Proof.
  rewrite !is_finite_SF, mul_spec.
  by destruct (Prim2SF x).
Qed.

(** ** Doubles: where NaN can come from *)

Lemma is_nan_SF (x : float) :
  is_nan x = match Prim2SF x with S754_nan => true | _ => false end.
Proof.
  unfold is_nan. rewrite FloatAxioms.eqb_spec.
  destruct (Prim2SF x) as [s|[|]| |s m e]; try reflexivity.
  unfold SFeqb, SFcompare. rewrite Z.compare_refl.
  fold (Pos.compare m m). rewrite Pos.compare_refl. by destruct s.
Qed.

Lemma nonzero_finite_SF (x : float) :
  nonzero_finite x =
  match Prim2SF x with S754_finite _ _ _ => true | _ => false end.
Proof.
  unfold nonzero_finite, is_zero. rewrite is_finite_SF, FloatAxioms.eqb_spec.
  change (Prim2SF 0) with (S754_zero false).
  by destruct (Prim2SF x) as [s|[|]| |[|] m e].
Qed.

Lemma shr_1_nonneg (mrs : shr_record) :
  0 <= shr_m mrs -> 0 <= shr_m (shr_1 mrs).
Proof.
  destruct mrs as [m r s]. simpl.
  destruct m as [|[p|p|]|p]; simpl; lia.
Qed.

Lemma iter_shr_1_nonneg (p : positive) (mrs : shr_record) :
  0 <= shr_m mrs -> 0 <= shr_m (SpecFloat.iter_pos shr_1 p mrs).
Proof.
  revert mrs. induction p as [p IH|p IH|]; intros mrs H; simpl.
  - apply IH, IH. by apply shr_1_nonneg.
  - by apply IH, IH.
  - by apply shr_1_nonneg.
Qed.

Lemma shr_fexp_nonneg (m e : Z) (l : location) :
  0 <= m -> 0 <= shr_m (fst (shr_fexp prec emax m e l)).
Proof.
  intros H. unfold shr_fexp, shr.
  assert (H0 : 0 <= shr_m (shr_record_of_loc m l)).
  { destruct l as [|[| |]]; simpl; done. }
  destruct (_ - e) as [|p|p]; simpl; [done| |done].
  by apply iter_shr_1_nonneg.
Qed.

(** Rounding a non-negative mantissa never yields NaN. *)
Lemma binary_round_aux_not_nan (s : bool) (m e : Z) (l : location) :
  0 <= m -> binary_round_aux prec emax s m e l <> S754_nan.
Proof.
  intros H. unfold binary_round_aux.
  pose proof (shr_fexp_nonneg m e l H) as H1.
  destruct (shr_fexp prec emax m e l) as [mrs' e']. simpl in H1.
  assert (H2 : 0 <= round_nearest_even (shr_m mrs') (loc_of_shr_record mrs')).
  { unfold round_nearest_even. repeat case_match; lia. }
  pose proof (shr_fexp_nonneg _ e' loc_Exact H2) as H3.
  destruct (shr_fexp prec emax _ e' loc_Exact) as [mrs'' e'']. simpl in H3.
  destruct (shr_m mrs'') as [|p|p]; [done| |lia].
  by destruct (e'' <=? emax - prec).
Qed.

Lemma mul_by_nonzero_finite_not_nan (x y : float) :
  is_nan x = false -> nonzero_finite y = true -> is_nan (x * y) = false.
Proof.
  rewrite !is_nan_SF, nonzero_finite_SF, mul_spec. intros Hx Hy.
  destruct (Prim2SF x) as [sx|sx| |sx mx ex], (Prim2SF y) as [sy| | |sy my ey];
    try done.
  unfold SF64mul, SFmul.
  pose proof (binary_round_aux_not_nan (xorb sx sy) (Z.pos (mx * my))
                (ex + ey) loc_Exact ltac:(lia)) as H.
  by destruct (binary_round_aux _ _ _ _ _ _).
Qed.

Lemma sub_finite_not_nan (x y : float) :
  is_finite x = true -> is_nan y = false -> is_nan (x - y) = false.
Proof.
  rewrite is_finite_SF, !is_nan_SF, sub_spec. intros Hx Hy.
  destruct (Prim2SF x) as [sx| | |sx mx ex], (Prim2SF y) as [sy|sy| |sy my ey];
    try done.
  - by destruct sx, sy.
  - unfold SF64sub, SFsub, binary_normalize, binary_round.
    destruct (cond_Zopp sx _ - cond_Zopp sy _) as [|p|p]; [done| |].
    all: destruct (shl_align p _ _) as [mz ez].
    all: match goal with
         | |- context [binary_round_aux ?a ?b ?s ?m ?e ?l] =>
             pose proof (binary_round_aux_not_nan s m e l ltac:(lia));
             by destruct (binary_round_aux a b s m e l)
         end.
Qed.

(** ** Doubles: magnitudes *)

Lemma digits2_pos_log2 (p : positive) :
  Z.pos (digits2_pos p) = Z.log2 (Z.pos p) + 1.
Proof.
  assert (H : digits2_pos p = Pos.size p).
  { induction p as [p IH|p IH|]; simpl; by rewrite ?IH. }
  rewrite H. destruct p; simpl; lia.
Qed.

Lemma shr_m_of_loc (m : Z) (l : location) : shr_m (shr_record_of_loc m l) = m.
Proof. by destruct l as [|[| |]]. Qed.

Lemma shr_1_div2 (mrs : shr_record) :
  0 <= shr_m mrs -> shr_m (shr_1 mrs) = Z.div2 (shr_m mrs).
Proof.
  destruct mrs as [m r s]. simpl. destruct m as [|[p|p|]|p]; simpl; done.
Qed.

Lemma iter_shr_1_shiftr (p : positive) (mrs : shr_record) :
  0 <= shr_m mrs ->
  shr_m (SpecFloat.iter_pos shr_1 p mrs) = Z.shiftr (shr_m mrs) (Z.pos p).
Proof.
  revert mrs. induction p as [p IH|p IH|]; intros mrs H; simpl SpecFloat.iter_pos.
  - rewrite IH by by apply iter_shr_1_nonneg, shr_1_nonneg.
    rewrite IH by by apply shr_1_nonneg.
    rewrite shr_1_div2, Z.div2_spec, !Z.shiftr_shiftr by lia.
    f_equal. lia.
  - rewrite IH by by apply iter_shr_1_nonneg.
    rewrite IH by done. rewrite Z.shiftr_shiftr by lia. f_equal. lia.
  - by rewrite shr_1_div2, Z.div2_spec.
Qed.

(** [shr_fexp] shifts the mantissa right by the number of bits that do not
    fit the format. *)
Lemma shr_fexp_spec (m e : Z) (l : location) :
  0 <= m ->
  let n := Z.max 0 (fexp prec emax (Zdigits2 m + e) - e) in
  shr_m (fst (shr_fexp prec emax m e l)) = Z.shiftr m n /\
  snd (shr_fexp prec emax m e l) = e + n.
Proof.
  intros H. unfold shr_fexp, shr.
  destruct (fexp prec emax (Zdigits2 m + e) - e) as [|p|p]; cbn [fst snd].
  - rewrite shr_m_of_loc, Z.shiftr_0_r. split; [done|lia].
  - rewrite iter_shr_1_shiftr by by rewrite shr_m_of_loc.
    rewrite shr_m_of_loc. by replace (Z.max 0 (Z.pos p)) with (Z.pos p) by lia.
  - rewrite shr_m_of_loc.
    replace (Z.max 0 (Z.neg p)) with 0 by lia.
    rewrite Z.shiftr_0_r. split; [done|lia].
Qed.

Lemma round_nearest_even_bounds (m : Z) (l : location) :
  m <= round_nearest_even m l <= m + 1.
Proof. unfold round_nearest_even. repeat case_match; lia. Qed.

Lemma shiftr_pos (m n : Z) :
  0 < m -> 0 <= n <= Z.log2 m ->
  0 < Z.shiftr m n /\ Z.log2 (Z.shiftr m n) = Z.log2 m - n.
Proof.
  intros Hm Hn. split.
  - rewrite Z.shiftr_div_pow2 by lia. apply Z.div_str_pos.
    split; [apply Z.pow_pos_nonneg; lia|]. apply Z.log2_le_pow2; lia.
  - rewrite Z.log2_shiftr by done. lia.
Qed.

(** Rounding a positive mantissa whose magnitude [log2 m + 1 + e] is well
    inside the exponent range gives a non-zero finite number of that
    magnitude, or of the next one. *)
Lemma binary_round_aux_finite (s : bool) (m e : Z) (l : location) :
  0 < m -> -1021 <= Z.log2 m + 1 + e <= 1022 -> e <= 970 ->
  exists mf ef,
    binary_round_aux prec emax s m e l = S754_finite s mf ef /\
    Z.log2 m + 1 + e <= Z.log2 (Z.pos mf) + 1 + ef <= Z.log2 m + 2 + e.
Proof.
  intros Hm Hk He. unfold binary_round_aux.
  destruct (shr_fexp_spec m e l ltac:(lia)) as [H1 H1e].
  destruct (shr_fexp prec emax m e l) as [mrs' e']. cbn [fst snd] in H1, H1e.
  set (m2 := round_nearest_even (shr_m mrs') (loc_of_shr_record mrs')).
  pose proof (round_nearest_even_bounds (shr_m mrs') (loc_of_shr_record mrs'))
    as Hm2. fold m2 in Hm2.
  assert (Hd : Zdigits2 m = Z.log2 m + 1).
  { destruct m as [|p|p]; [lia| |lia]. apply digits2_pos_log2. }
  rewrite Hd in H1, H1e.
  unfold fexp, SpecFloat.emin, prec, emax in H1, H1e.
  pose proof (Z.log2_nonneg m) as HL.
  set (n1 := Z.max 0 (Z.max (Z.log2 m + 1 + e - 53) (3 - 1024 - 53) - e))
    in H1, H1e.
  assert (Hn1 : n1 = Z.max 0 (Z.log2 m - 52)) by lia.
  destruct (shiftr_pos m n1 Hm ltac:(lia)) as [Hp1 Hl1].
  rewrite <- H1 in Hp1, Hl1.
  assert (Hp2 : 0 < m2) by lia.
  assert (Hl2 : Z.log2 (shr_m mrs') <= Z.log2 m2 <= Z.log2 (shr_m mrs') + 1).
  { split; [apply Z.log2_le_mono; lia|].
    transitivity (Z.log2 (Z.succ (shr_m mrs'))).
    - apply Z.log2_le_mono. lia.
    - pose proof (Z.log2_succ_le (shr_m mrs')). lia. }
  destruct (shr_fexp_spec m2 e' loc_Exact ltac:(lia)) as [H2 H2e].
  destruct (shr_fexp prec emax m2 e' loc_Exact) as [mrs'' e''].
  cbn [fst snd] in H2, H2e.
  assert (Hd2 : Zdigits2 m2 = Z.log2 m2 + 1).
  { destruct m2 as [|p|p]; [lia| |lia]. apply digits2_pos_log2. }
  rewrite Hd2 in H2, H2e.
  unfold fexp, SpecFloat.emin, prec, emax in H2, H2e.
  set (n2 := Z.max 0 (Z.max (Z.log2 m2 + 1 + e' - 53) (3 - 1024 - 53) - e'))
    in H2, H2e.
  assert (Hn2 : n2 = Z.max 0 (Z.log2 m2 - 52)) by lia.
  destruct (shiftr_pos m2 n2 Hp2 ltac:(lia)) as [Hp3 Hl3].
  rewrite <- H2 in Hp3, Hl3.
  destruct (shr_m mrs'') as [|mf|mf]; [lia| |lia].
  exists mf, e''. unfold prec, emax.
  replace (e'' <=? 1024 - 53) with true by (symmetry; apply Z.leb_le; lia).
  split; [done|lia].
Qed.

(** [double_of_Z] on the range of [size_t] counts is [of_uint63], so the
    double it denotes is the rounded integer. *)
Lemma double_of_Z_SF (n : Z) :
  0 <= n < 2 ^ 63 ->
  Prim2SF (double_of_Z n) = binary_normalize prec emax n 0 false.
Proof.
  intros Hn. unfold double_of_Z.
  pose proof (of_uint63_spec (Uint63.of_Z n)) as H.
  rewrite Uint63.of_Z_spec, Z.mod_small in H
    by (change Uint63.wB with (2 ^ 63); lia).
  by rewrite <- H, SF2Prim_Prim2SF.
Qed.

Lemma shl_align_spec (mx : positive) (ex ex' : Z) :
  Z.log2 (Z.pos (fst (shl_align mx ex ex'))) + snd (shl_align mx ex ex')
  = Z.log2 (Z.pos mx) + ex /\
  snd (shl_align mx ex ex') <= ex.
Proof.
  unfold shl_align. destruct (ex' - ex) as [|d|d] eqn:E; cbn [fst snd];
    [lia|lia|].
  split; [|lia].
  assert (H : Z.log2 (Z.pos (Pos.iter xO mx d)) = Z.log2 (Z.pos mx) + Z.pos d).
  { apply (Pos.iter_ind _ xO mx
             (fun d a => Z.log2 (Z.pos a) = Z.log2 (Z.pos mx) + Z.pos d)).
    - change (Z.pos mx~0) with (2 * Z.pos mx). rewrite Z.log2_double; lia.
    - intros p a IH. change (Z.pos a~0) with (2 * Z.pos a).
      rewrite Z.log2_double, IH; lia. }
  lia.
Qed.

(** A positive count converts to a positive finite double of the count's
    magnitude, or of the next one. *)
Lemma double_of_Z_finite (n : Z) :
  1 <= n < 2 ^ 63 ->
  exists m e,
    Prim2SF (double_of_Z n) = S754_finite false m e /\
    Z.log2 n + 1 <= Z.log2 (Z.pos m) + 1 + e <= Z.log2 n + 2 /\
    0 <= Z.log2 n < 63.
Proof.
  intros Hn. rewrite double_of_Z_SF by lia.
  destruct n as [|p|p]; [lia| |lia].
  unfold binary_normalize, binary_round.
  pose proof (shl_align_spec p 0
                (fexp prec emax (Z.pos (digits2_pos p) + 0))) as [Ha Hb].
  destruct (shl_align p 0 _) as [mz ez]. cbn [fst snd] in Ha, Hb.
  assert (Hl : 0 <= Z.log2 (Z.pos p) < 63).
  { split; [apply Z.log2_nonneg|]. apply Z.log2_lt_pow2; lia. }
  destruct (binary_round_aux_finite false (Z.pos mz) ez loc_Exact)
    as (mf & ef & -> & Hk); [lia|lia|lia|].
  exists mf, ef. split; [done|lia].
Qed.

Lemma double_of_Z_nonzero_finite (n : Z) :
  1 <= n < 2 ^ 63 -> nonzero_finite (double_of_Z n) = true.
Proof.
  intros Hn. rewrite nonzero_finite_SF.
  by destruct (double_of_Z_finite n Hn) as (m & e & -> & _).
Qed.

(** The mantissa of a double of normal magnitude has 53 bits. *)
Lemma finite_canonical (x : float) (s : bool) (m : positive) (e : Z) :
  Prim2SF x = S754_finite s m e ->
  -1021 <= Z.log2 (Z.pos m) + 1 + e ->
  Z.log2 (Z.pos m) = 52.
Proof.
  intros Hx Hk. pose proof (Prim2SF_valid x) as Hv. rewrite Hx in Hv.
  unfold valid_binary, bounded, canonical_mantissa in Hv.
  apply andb_prop in Hv as [Hv _]. apply Z.eqb_eq in Hv.
  rewrite digits2_pos_log2 in Hv.
  unfold fexp, SpecFloat.emin, prec, emax in Hv. lia.
Qed.

(** The quotient of two doubles of magnitude between 1 and 64 is a
    non-zero finite double. *)
Lemma div_nonzero_finite (x y : float) (sx sy : bool) (mx my : positive)
    (ex ey : Z) :
  Prim2SF x = S754_finite sx mx ex ->
  Prim2SF y = S754_finite sy my ey ->
  1 <= Z.log2 (Z.pos mx) + 1 + ex <= 64 ->
  1 <= Z.log2 (Z.pos my) + 1 + ey <= 64 ->
  nonzero_finite (x / y) = true.
Proof.
  intros Hx Hy Hkx Hky.
  pose proof (finite_canonical x sx mx ex Hx ltac:(lia)) as Hlx.
  pose proof (finite_canonical y sy my ey Hy ltac:(lia)) as Hly.
  rewrite nonzero_finite_SF, div_spec, Hx, Hy.
  unfold SF64div, SFdiv, SFdiv_core_binary, Zdigits2.
  rewrite !digits2_pos_log2, Hlx, Hly.
  unfold fexp, SpecFloat.emin, prec, emax.
  replace (Z.min _ (ex - ey)) with (ex - ey - 53) by lia.
  replace (ex - ey - (ex - ey - 53)) with 53 by lia.
  pose proof (Z.log2_spec (Z.pos mx) ltac:(lia)) as Hbx.
  pose proof (Z.log2_spec (Z.pos my) ltac:(lia)) as Hby.
  rewrite Hlx in Hbx. rewrite Hly in Hby.
  change (Z.succ 52) with 53 in Hbx, Hby.
  set (m' := Z.shiftl (Z.pos mx) 53).
  assert (Hm' : m' = Z.pos mx * 2 ^ 53) by (apply Z.shiftl_mul_pow2; lia).
  pose proof (Z.div_le_lower_bound m' (Z.pos my) (2 ^ 52) ltac:(lia)
                ltac:(lia)) as Hq1.
  pose proof (Z.div_lt_upper_bound m' (Z.pos my) (2 ^ 54) ltac:(lia)
                ltac:(lia)) as Hq2.
  unfold Z.div in Hq1, Hq2.
  destruct (Z.div_eucl m' (Z.pos my)) as [q r]. cbn [fst] in Hq1, Hq2.
  assert (Hlq : 52 <= Z.log2 q < 54).
  { split; [apply Z.log2_le_pow2; lia|apply Z.log2_lt_pow2; lia]. }
  change (binary_round_aux 53 1024) with (binary_round_aux prec emax).
  destruct (binary_round_aux_finite (xorb sx sy) q (ex - ey - 53)
              (new_location (Z.pos my) r))
    as (mf & ef & -> & _); [lia|lia|lia|done].
Qed.

(** Dividing by a non-zero finite double introduces no NaN. *)
Lemma div_not_nan (x y : float) :
  is_nan x = false -> nonzero_finite y = true -> is_nan (x / y) = false.
Proof.
  rewrite !is_nan_SF, nonzero_finite_SF, div_spec. intros Hx Hy.
  destruct (Prim2SF x) as [sx|sx| |sx mx ex], (Prim2SF y) as [sy| | |sy my ey];
    try done.
  unfold SF64div, SFdiv, SFdiv_core_binary.
  set (s := _ - _ - Z.min _ _).
  set (m' := match s with 0 => Z.pos mx | Z.pos _ => Z.shiftl (Z.pos mx) s
             | Z.neg _ => 0 end).
  assert (Hm' : 0 <= m').
  { unfold m'. destruct s; [lia| |lia]. apply Z.shiftl_nonneg. lia. }
  pose proof (Z.div_pos m' (Z.pos my) Hm' ltac:(lia)) as Hq.
  unfold Z.div in Hq.
  destruct (Z.div_eucl m' (Z.pos my)) as [q r]. cbn [fst] in Hq.
  match goal with |- context [binary_round_aux ?a ?b ?s ?m ?e ?l] =>
    pose proof (binary_round_aux_not_nan s m e l Hq);
    by destruct (binary_round_aux a b s m e l) end.
Qed.

Lemma square_not_nan (x : float) : is_nan x = false -> is_nan (x * x) = false.
Proof.
  rewrite !is_nan_SF, mul_spec. intros Hx.
  destruct (Prim2SF x) as [sx|sx| |sx mx ex]; try done.
  unfold SF64mul, SFmul.
  pose proof (binary_round_aux_not_nan (xorb sx sx) (Z.pos (mx * mx))
                (ex + ex) loc_Exact ltac:(lia)) as H.
  by destruct (binary_round_aux _ _ _ _ _ _).
Qed.

(** Rounding a mantissa whose magnitude is below the largest one never
    overflows. *)
Lemma binary_round_aux_no_overflow (s : bool) (m e : Z) (l : location) :
  0 <= m -> Z.log2 m + 1 + e <= 1023 -> e <= 970 ->
  match binary_round_aux prec emax s m e l with
  | S754_zero _ | S754_finite _ _ _ => True
  | _ => False
  end.
Proof.
  intros Hm Hk He. unfold binary_round_aux.
  destruct (shr_fexp_spec m e l Hm) as [H1 H1e].
  destruct (shr_fexp prec emax m e l) as [mrs' e']. cbn [fst snd] in H1, H1e.
  set (m2 := round_nearest_even (shr_m mrs') (loc_of_shr_record mrs')).
  pose proof (round_nearest_even_bounds (shr_m mrs') (loc_of_shr_record mrs'))
    as Hm2. fold m2 in Hm2.
  pose proof (Z.log2_nonneg m) as HL.
  assert (Hd : Zdigits2 m <= Z.log2 m + 1).
  { destruct m as [|p|p]; [simpl; lia| |lia]. rewrite <- digits2_pos_log2.
    simpl. lia. }
  assert (Hd0 : 0 <= Zdigits2 m) by (destruct m; simpl; lia).
  unfold fexp, SpecFloat.emin, prec, emax in H1, H1e.
  set (n1 := Z.max 0 (Z.max (Zdigits2 m + e - 53) (3 - 1024 - 53) - e))
    in H1, H1e.
  assert (He' : -1074 <= e' <= 970) by lia.
  assert (Hs1 : 0 <= shr_m mrs' < 2 ^ 53).
  { rewrite H1. split; [apply Z.shiftr_nonneg; lia|].
    rewrite Z.shiftr_div_pow2 by lia.
    destruct (Z.eq_dec m 0) as [->|Hm0]; [by rewrite Z.div_0_l by lia|].
    assert (Hdm : Zdigits2 m = Z.log2 m + 1).
    { destruct m as [|p|p]; [lia| |lia]. apply digits2_pos_log2. }
    apply Z.div_lt_upper_bound; [apply Z.pow_pos_nonneg; lia|].
    rewrite <- Z.pow_add_r by lia.
    pose proof (Z.log2_spec m ltac:(lia)) as [_ Hlt].
    eapply Z.lt_le_trans; [exact Hlt|].
    apply Z.pow_le_mono_r; lia. }
  assert (Hs2 : 0 <= m2 <= 2 ^ 53) by lia.
  destruct (shr_fexp_spec m2 e' loc_Exact ltac:(lia)) as [H2 H2e].
  destruct (shr_fexp prec emax m2 e' loc_Exact) as [mrs'' e''].
  cbn [fst snd] in H2, H2e.
  unfold fexp, SpecFloat.emin, prec, emax in H2, H2e.
  assert (Hd2 : 0 <= Zdigits2 m2 <= 54).
  { destruct m2 as [|p|p]; [simpl; lia| |lia].
    change (Zdigits2 (Z.pos p)) with (Z.pos (digits2_pos p)).
    rewrite digits2_pos_log2.
    pose proof (Z.log2_nonneg (Z.pos p)).
    assert (Z.log2 (Z.pos p) < 54); [|lia].
    apply Z.log2_lt_pow2; lia. }
  assert (Hs3 : 0 <= shr_m mrs'').
  { rewrite H2. apply Z.shiftr_nonneg. lia. }
  destruct (shr_m mrs'') as [|mf|mf]; [done| |lia].
  unfold prec, emax.
  by replace (e'' <=? 1024 - 53) with true by (symmetry; apply Z.leb_le; lia).
Qed.

(** Shifting right bits that are all zero keeps the location exact. *)
Lemma iter_shr_1_exact (p : positive) (m : Z) :
  0 <= m ->
  SpecFloat.iter_pos shr_1 p
    (Build_shr_record (Z.shiftl m (Z.pos p)) false false)
  = Build_shr_record m false false.
Proof.
  revert m. induction p as [p IH|p IH|]; intros m Hm;
    cbn [SpecFloat.iter_pos].
  - replace (Z.shiftl m (Z.pos p~1))
      with (Z.shiftl (Z.shiftl (Z.shiftl m (Z.pos p)) (Z.pos p)) 1)
      by (rewrite !Z.shiftl_shiftl by lia; f_equal; lia).
    assert (H1 : forall a, 0 <= a ->
              shr_1 (Build_shr_record (Z.shiftl a 1) false false)
              = Build_shr_record a false false).
    { intros a Ha. by destruct a as [|q|q]; [| |lia]. }
    rewrite H1 by (apply Z.shiftl_nonneg, Z.shiftl_nonneg; lia).
    rewrite IH by (apply Z.shiftl_nonneg; lia). by apply IH.
  - replace (Z.shiftl m (Z.pos p~0))
      with (Z.shiftl (Z.shiftl m (Z.pos p)) (Z.pos p))
      by (rewrite !Z.shiftl_shiftl by lia; f_equal; lia).
    rewrite IH by (apply Z.shiftl_nonneg; lia). by apply IH.
  - by destruct m as [|q|q]; [| |lia].
Qed.

(** Dividing a finite double by one returns it. *)
Lemma div_one_finite (x : float) :
  is_finite x = true -> is_finite (x / 1) = true.
Proof.
  rewrite !is_finite_SF, div_spec. intros Hx.
  pose proof (Prim2SF_valid x) as Hv.
  change (Prim2SF 1) with (S754_finite false 4503599627370496 (-52)).
  destruct (Prim2SF x) as [sx|sx| |sx mx ex]; try done.
  unfold valid_binary, bounded, canonical_mantissa in Hv.
  apply andb_prop in Hv as [Hc He]. apply Z.eqb_eq in Hc. apply Z.leb_le in He.
  rewrite digits2_pos_log2 in Hc.
  pose proof (Z.log2_nonneg (Z.pos mx)) as HL.
  unfold SF64div, SFdiv, SFdiv_core_binary, Zdigits2.
  rewrite digits2_pos_log2.
  change (Z.pos (digits2_pos 4503599627370496)) with 53.
  unfold fexp, SpecFloat.emin, prec, emax in *.
  set (e' := Z.min _ (ex - -52)).
  set (s := ex - -52 - e').
  assert (Hs : 52 <= s) by lia.
  destruct s as [|p|p] eqn:Es; [lia| |lia]. rewrite <- Es in *.
  assert (Hdiv : Z.div_eucl (Z.shiftl (Z.pos mx) s) 4503599627370496
                 = (Z.shiftl (Z.pos mx) (s - 52), 0)).
  { pose proof (Z.div_eucl_eq (Z.shiftl (Z.pos mx) s) 4503599627370496
                  ltac:(lia)) as Heq.
    pose proof (Z.mod_pos_bound (Z.shiftl (Z.pos mx) s) 4503599627370496
                  ltac:(lia)) as Hb.
    unfold Z.modulo in Hb.
    assert (Hm : Z.shiftl (Z.pos mx) s
                 = 4503599627370496 * Z.shiftl (Z.pos mx) (s - 52)).
    { rewrite !Z.shiftl_mul_pow2 by lia.
      replace s with (s - 52 + 52) at 1 by lia.
      rewrite Z.pow_add_r by lia. change (2 ^ 52) with 4503599627370496.
      lia. }
    destruct (Z.div_eucl _ _) as [q r]. f_equal; lia. }
  rewrite Hdiv.
  change (new_location 4503599627370496 0) with loc_Exact.
  unfold binary_round_aux, shr_fexp.
  assert (Hq : 0 < Z.shiftl (Z.pos mx) (s - 52)).
  { rewrite Z.shiftl_mul_pow2 by lia.
    apply Z.mul_pos_pos; [lia|apply Z.pow_pos_nonneg; lia]. }
  assert (Hdq : Zdigits2 (Z.shiftl (Z.pos mx) (s - 52))
                = Z.log2 (Z.pos mx) + (s - 52) + 1).
  { rewrite <- Z.log2_shiftl by lia.
    destruct (Z.shiftl (Z.pos mx) (s - 52)) as [|q|q]; [lia| |lia].
    apply digits2_pos_log2. }
  rewrite Hdq.
  unfold fexp, SpecFloat.emin, prec, emax.
  replace (Z.max _ _ - e') with (s - 52) by lia.
  assert (Hfirst : shr (shr_record_of_loc (Z.shiftl (Z.pos mx) (s - 52))
                          loc_Exact) e' (s - 52)
                   = (Build_shr_record (Z.pos mx) false false, ex)).
  { unfold shr. destruct (s - 52) as [|n|n] eqn:En; [|  |lia].
    - rewrite Z.shiftl_0_r. simpl. f_equal. lia.
    - simpl shr_record_of_loc. rewrite iter_shr_1_exact by lia.
      f_equal. lia. }
  rewrite Hfirst. cbn [shr_m loc_of_shr_record round_nearest_even].
  change (Zdigits2 (Z.pos mx)) with (Z.pos (digits2_pos mx)).
  rewrite digits2_pos_log2.
  replace (Z.max _ _ - ex) with 0 by lia.
  simpl.
  by replace (ex <=? 1024 - 53) with true by (symmetry; apply Z.leb_le; lia).
Qed.

(** Dividing a finite double by a positive count does not overflow. *)
Lemma div_by_count_finite (x : float) (n : Z) :
  is_finite x = true -> 1 <= n < 2 ^ 63 ->
  is_finite (x / double_of_Z n) = true.
Proof.
  intros Hx Hn.
  destruct (Z.eq_dec n 1) as [->|Hn1].
  { change (double_of_Z 1) with 1%float. by apply div_one_finite. }
  destruct (double_of_Z_finite n Hn) as (my & ey & Hy & Hky & Hln).
  assert (Hl1 : 1 <= Z.log2 n).
  { apply Z.log2_le_pow2; lia. }
  pose proof (finite_canonical _ _ my ey Hy ltac:(lia)) as Hly.
  pose proof (Z.log2_spec (Z.pos my) ltac:(lia)) as Hby.
  rewrite Hly in Hby. change (Z.succ 52) with 53 in Hby.
  revert Hx. rewrite !is_finite_SF, div_spec, Hy. intros Hx.
  pose proof (Prim2SF_valid x) as Hv.
  destruct (Prim2SF x) as [sx|sx| |sx mx ex]; try done.
  unfold valid_binary, bounded, canonical_mantissa in Hv.
  apply andb_prop in Hv as [Hc He]. apply Z.eqb_eq in Hc. apply Z.leb_le in He.
  rewrite digits2_pos_log2 in Hc.
  pose proof (Z.log2_nonneg (Z.pos mx)) as HL.
  pose proof (Z.log2_spec (Z.pos mx) ltac:(lia)) as [_ Hbx].
  unfold SF64div, SFdiv, SFdiv_core_binary, Zdigits2.
  rewrite !digits2_pos_log2, Hly.
  unfold fexp, SpecFloat.emin, prec, emax in *.
  set (e' := Z.min _ (ex - ey)).
  set (s := ex - ey - e').
  assert (Hs : 0 <= s) by lia.
  set (m' := match s with 0 => Z.pos mx | Z.pos _ => Z.shiftl (Z.pos mx) s
             | Z.neg _ => 0 end).
  assert (Hm' : m' = Z.pos mx * 2 ^ s).
  { unfold m'. destruct s as [|p|p] eqn:Es; [simpl; lia| |lia].
    apply Z.shiftl_mul_pow2. lia. }
  assert (Hm'lt : m' < 2 ^ (Z.log2 (Z.pos mx) + 1 + s)).
  { rewrite Hm', Z.pow_add_r by lia.
    apply Z.mul_lt_mono_pos_r; [apply Z.pow_pos_nonneg; lia|].
    by rewrite <- Z.add_1_r in Hbx. }
  assert (Hm'0 : 0 <= m').
  { rewrite Hm'. apply Z.mul_nonneg_nonneg; [lia|].
    apply Z.pow_nonneg. lia. }
  pose proof (Z.div_pos m' (Z.pos my) Hm'0 ltac:(lia)) as Hq0.
  assert (Hq : m' / Z.pos my = 0 \/
               Z.log2 (m' / Z.pos my) < Z.log2 (Z.pos mx) + 1 + s - 52).
  { destruct (Z_lt_le_dec (Z.log2 (Z.pos mx) + 1 + s) 52) as [Hlt|Hge].
    - left. apply Z.div_small. split; [done|].
      eapply Z.lt_le_trans; [exact Hm'lt|].
      transitivity (2 ^ 52); [apply Z.pow_le_mono_r; lia|lia].
    - destruct (Z.eq_dec (m' / Z.pos my) 0) as [?|Hne]; [by left|right].
      apply Z.log2_lt_pow2; [lia|].
      apply Z.div_lt_upper_bound; [lia|].
      eapply Z.lt_le_trans; [exact Hm'lt|].
      set (b := Z.log2 (Z.pos mx) + 1 + s - 52).
      replace (Z.log2 (Z.pos mx) + 1 + s) with (52 + b) by (unfold b; lia).
      rewrite Z.pow_add_r by (unfold b; lia).
      apply Z.mul_le_mono_nonneg_r; [apply Z.pow_nonneg; lia|lia]. }
  unfold Z.div in Hq0, Hq.
  destruct (Z.div_eucl m' (Z.pos my)) as [q r]. cbn [fst] in Hq0, Hq.
  change (binary_round_aux 53 1024) with (binary_round_aux prec emax).
  pose proof (binary_round_aux_no_overflow (xorb sx false) q e'
                (new_location (Z.pos my) r) Hq0) as Hr.
  destruct (binary_round_aux _ _ _ _ _ _); try done.
  all: exfalso; apply Hr; [|lia].
  all: destruct Hq as [->|Hq]; [simpl; lia|lia].
Qed.

(** * The claims *)

(** ** The statistic formulas *)

(** C2. For every accumulator state, the sample variance is NaN when
    [count < 2]; otherwise it is [popVar * (count / (count - 1))] with
    [mean = sum / count] and [popVar = sumSquares / count - mean * mean]
    (Bessel's correction applied to the population variance of the running
    aggregates). *)
Theorem variance_sample_formula (d : WindowStatsData) :
  0 <= count d < 2 ^ 64 ->
  (count d < 2 -> calculate_variance_sample d = NAN) /\
  (2 <= count d ->
   let n := double_of_Z (count d) in
   let mean := (sum d / n)%float in
   let popVar := (sum_sq d / n - mean * mean)%float in
   calculate_variance_sample d
   = (popVar * (n / double_of_Z (count d - 1)))%float) /\
  calculate_variance_sample d
  = Spec.varianceSample (count d) (sum d) (sum_sq d).
Proof.
  intros Hr. unfold calculate_variance_sample, Spec.varianceSample,
    MIN_COUNT_SAMPLE, NAN.
  destruct (count d <? 2) eqn:E.
  - apply Z.ltb_lt in E. split; [done|]. split; [lia|done].
  - apply Z.ltb_ge in E. rewrite size_wrap_small by lia.
    split; [lia|]. done.
Qed.

Lemma variance_sample_formula_witness :
  let d := mkStats None 2 100 0 2 4%float 10%float in
  0 <= count d < 2 ^ 64 /\
  calculate_variance_sample d = 2%float /\
  calculate_variance_sample d
  = Spec.varianceSample (count d) (sum d) (sum_sq d).
Proof.
  intros d.
  assert (Hr : 0 <= count d < 2 ^ 64) by (simpl; lia).
  split; [exact Hr|].
  split; [reflexivity|].
  exact (proj2 (proj2 (variance_sample_formula d Hr))).
Defined.

(** C3. For every accumulator state, the population variance is NaN when
    [count < 1]; otherwise it is [sumSquares / count - (sum / count)^2]. *)
Theorem variance_population_formula (d : WindowStatsData) :
  (count d < 1 -> calculate_variance_population d = NAN) /\
  (1 <= count d ->
   let n := double_of_Z (count d) in
   let mean := (sum d / n)%float in
   calculate_variance_population d = (sum_sq d / n - mean * mean)%float) /\
  calculate_variance_population d
  = Spec.variancePopulation (count d) (sum d) (sum_sq d).
Proof.
  unfold calculate_variance_population, Spec.variancePopulation,
    MIN_COUNT_POPULATION, NAN.
  destruct (count d <? 1) eqn:E.
  - apply Z.ltb_lt in E. split; [done|]. split; [lia|done].
  - apply Z.ltb_ge in E. split; [lia|]. done.
Qed.

(** ** Evicting from an empty accumulator *)

(** C6. On an empty accumulator ([count = 0]) [remove_from_circular_buffer]
    returns the sentinel 0.0 and the accumulator unchanged, and
    [stats_inverse] returns with the whole context unchanged: no field of
    the accumulator changes, and nothing is subtracted from [sum] or
    [sum_sq]. *)
Theorem evict_on_empty (c : sqlite3_context) (d : WindowStatsData)
    (argv : list sqlite3_value) :
  pAgg c = Some d -> count d = 0 ->
  remove_from_circular_buffer d = Some (0%float, d) /\
  stats_inverse c argv = Some c.
Proof.
  intros Hp Hc. split; [by apply remove_empty|].
  unfold stats_inverse, sqlite3_aggregate_context. rewrite Hp. simpl.
  rewrite Hp. destruct (values d); [|done]. by rewrite Hc.
Qed.

Lemma evict_on_empty_witness :
  remove_from_circular_buffer zero_stats = Some (0%float, zero_stats) /\
  stats_inverse initial_context [SqlFloat 1%float] = Some initial_context.
Proof.
  exact (evict_on_empty initial_context zero_stats [SqlFloat 1%float]
           eq_refl eq_refl).
Defined.

(** ** Reachable accumulators *)

Lemma refines_initial : refines initial_context (Some Spec.empty).
Proof. apply refines_fresh. Qed.

Lemma model_call_Some (k : call) (a : Spec.acc) :
  exists a', model_call k (Some a) = Some a'.
Proof.
  destruct k as [arg env|arg]; simpl.
  - destruct (numeric arg); [|eauto].
    destruct (Spec.insert _ _ _); eauto.
  - destruct (sqlite3_value_type arg); eauto.
Qed.

Lemma model_run_Some (cs : list call) (a : Spec.acc) :
  exists a', model_run cs (Some a) = Some a'.
Proof.
  revert a. induction cs as [|k cs IH]; intros a; simpl; [eauto|].
  destruct (model_call_Some k a) as [a1 ->]. apply IH.
Qed.

Lemma refines_inv (c : sqlite3_context) (d : WindowStatsData)
    (a : Spec.acc) :
  refines c (Some a) -> pAgg c = Some d ->
  holds d (Spec.items a) /\ sum d = Spec.sum a /\
  sum_sq d = Spec.sumSquares a /\
  match values d with
  | None => Spec.cap a = 0
  | Some _ => capacity d = Spec.cap a
  end.
Proof. unfold refines. intros H Hp. by rewrite Hp in H. Qed.

Lemma refines_pAgg (c : sqlite3_context) (a : Spec.acc) :
  refines c (Some a) -> exists d, pAgg c = Some d.
Proof. unfold refines. destruct (pAgg c); [eauto|done]. Qed.

(** Every run of callbacks from the initial state is defined, and the
    accumulator it leaves implements the specification's accumulator. *)
Lemma reachable (cs : list call) :
  exists c d a,
    run cs initial_context = Some c /\ pAgg c = Some d /\
    model_run cs (Some Spec.empty) = Some a /\
    refines c (Some a).
Proof.
  destruct (run_refines cs _ _ refines_initial) as (c & Hrun & Hr).
  destruct (model_run_Some cs Spec.empty) as [a Ha]. rewrite Ha in Hr.
  destruct (refines_pAgg c a Hr) as [d Hd]. by exists c, d, a.
Qed.

Lemma reachable_valid (cs : list call) (c : sqlite3_context)
    (d : WindowStatsData) :
  run cs initial_context = Some c -> pAgg c = Some d -> valid d.
Proof.
  intros Hrun Hp. destruct (reachable cs) as (c0 & d0 & a & Hrun0 & _ & _ & Hr).
  simplify_eq. exists (Spec.items a). by apply (refines_inv c d a).
Qed.

Lemma holds_invariant (d : WindowStatsData) (l : list float) :
  holds d l -> values d <> None -> buffer_invariant d.
Proof.
  intros [_ H] Hv. destruct (values d); [|done]. by destruct H as (_ & _ & ? & _).
Qed.

Lemma grown_nonzero (n : Z) : 0 <= n -> Spec.grown n <> 0.
Proof.
  unfold Spec.grown, INITIAL_CAPACITY, CAPACITY_GROWTH_FACTOR.
  destruct (n =? 0) eqn:E; [done|]. apply Z.eqb_neq in E. lia.
Qed.

(** A call that leaves the accumulator without a buffer found it without
    one, and changed at most its [capacity], to [INITIAL_CAPACITY]. *)
Lemma call_without_buffer (k : call) (c c' : sqlite3_context)
    (d d' : WindowStatsData) :
  pAgg c = Some d -> values d = None ->
  do_call k c = Some c' -> pAgg c' = Some d' -> values d' = None ->
  count d' = count d /\ head d' = head d /\ tail d' = tail d /\
  (capacity d' = capacity d \/ capacity d' = INITIAL_CAPACITY).
Proof.
  intros Hp Ev Hk Hp' Ev'. destruct k as [arg env|arg]; simpl in Hk.
  - revert Hk. unfold stats_step, sqlite3_aggregate_context.
    rewrite Hp. simpl. rewrite Hp, Ev. unfold init_window_stats_data.
    destruct (malloc _ _) as [blk|]; simpl.
    + intros Hk. exfalso.
      destruct arg; simpl in Hk; simplify_eq; simpl in *; simplify_eq.
      all: unfold add_to_circular_buffer in Hk; simpl in Hk;
        repeat case_match; simplify_eq; simpl in *; simplify_eq.
    + intros [= <-]. simpl in Hp'. simplify_eq. simpl. eauto.
  - revert Hk. unfold stats_inverse, sqlite3_aggregate_context.
    rewrite Hp. simpl. rewrite Hp, Ev. intros [= <-]. simplify_eq. eauto.
Qed.

(** A call on an accumulator that has its buffer leaves it with one. *)
Lemma call_keeps_buffer (k : call) (c c' : sqlite3_context)
    (d d' : WindowStatsData) (a : Spec.acc) :
  refines c (Some a) -> pAgg c = Some d -> values d <> None ->
  do_call k c = Some c' -> pAgg c' = Some d' -> values d' <> None.
Proof.
  intros Hr Hp Hv Hk Hp' Ev'.
  destruct (refines_inv c d a Hr Hp) as (Hh & _ & _ & Hcap).
  pose proof (holds_capacity_pos d _ Hh Hv) as Hpos.
  destruct (values d) eqn:Ev; [|done].
  destruct (call_refines k c _ Hr) as (c1 & Hk1 & Hr1). simplify_eq.
  destruct (model_call_Some k a) as [a' Ha']. rewrite Ha' in Hr1.
  destruct (refines_inv c' d' a' Hr1 Hp') as (_ & _ & _ & Hcap').
  rewrite Ev' in Hcap'.
  revert Ha'. destruct k as [arg env|arg]; simpl.
  - unfold Spec.insert, Spec.prepare.
    destruct (Spec.cap a =? 0) eqn:E0; [apply Z.eqb_eq in E0; lia|].
    pose proof (grown_nonzero (Spec.cap a)).
    repeat case_match; intros; simplify_eq; simpl in *; lia.
  - unfold Spec.evict.
    repeat case_match; intros; simplify_eq; simpl in *; lia.
Qed.

(** C9. Every operation preserves the structural invariant: on every
    accumulator reachable from the initial empty state, [stats_step]
    (initialisation and growth included) and [stats_inverse] return, and
    if [0 <= count <= capacity], [head < capacity] and
    [tail = (head + count) mod capacity] held before the call, they hold
    after it.  (They hold in every reachable accumulator that has its
    buffer.) *)
Theorem invariant_preserved (cs : list call) (k : call)
    (c : sqlite3_context) (d : WindowStatsData) :
  run cs initial_context = Some c -> pAgg c = Some d ->
  exists c' d',
    do_call k c = Some c' /\ pAgg c' = Some d' /\
    (buffer_invariant d -> buffer_invariant d') /\
    (values d <> None -> buffer_invariant d) /\
    (values d' <> None -> buffer_invariant d').
Proof.
  intros Hrun Hp.
  destruct (reachable cs) as (c0 & d0 & a & Hrun0 & _ & _ & Hr). simplify_eq.
  destruct (refines_inv c d a Hr Hp) as (Hh & _ & _ & Hcap).
  destruct (call_refines k c _ Hr) as (c' & Hk & Hr').
  destruct (model_call_Some k a) as [a' Ha']. rewrite Ha' in Hr'.
  destruct (refines_pAgg c' a' Hr') as [d' Hp'].
  destruct (refines_inv c' d' a' Hr' Hp') as (Hh' & _ & _ & Hcap').
  exists c', d'. split; [done|]. split; [done|].
  split; [|split; [by apply (holds_invariant d _ Hh)
                  |by apply (holds_invariant d' _ Hh')]].
  intros Hinv.
  destruct (values d') as [buf'|] eqn:Ev'.
  { apply (holds_invariant d' _ Hh'). by rewrite Ev'. }
  destruct (values d) as [buf|] eqn:Ev.
  { exfalso. apply (call_keeps_buffer k c c' d d' a); try done.
    by rewrite Ev. }
  destruct (call_without_buffer k c c' d d' Hp Ev Hk Hp' Ev')
    as (Hc & Hhd & Htl & Hcp).
  destruct Hinv as (H1 & H2 & H3).
  destruct Hh as [_ Hz]. rewrite Ev in Hz.
  destruct Hz as (Hc0 & Hh0 & Ht0 & _).
  unfold buffer_invariant, INITIAL_CAPACITY in *.
  rewrite Hc, Hhd, Htl, Hc0, Hh0, Ht0.
  destruct Hcp as [->| ->]; rewrite Z.add_0_l, Z.mod_0_l; lia.
Qed.

Lemma invariant_preserved_witness :
  let c := default initial_context (run [enter 1%float] initial_context) in
  let d := default zero_stats (pAgg c) in
  run [enter 1%float] initial_context = Some c /\ pAgg c = Some d /\
  buffer_invariant d /\
  exists c' d',
    do_call leave c = Some c' /\ pAgg c' = Some d' /\ buffer_invariant d'.
Proof.
  intros c d.
  assert (Hrun : run [enter 1%float] initial_context = Some c) by reflexivity.
  assert (Hp : pAgg c = Some d) by reflexivity.
  assert (Hinv : buffer_invariant d).
  { unfold buffer_invariant. repeat split; vm_compute;
      (reflexivity || discriminate). }
  split; [exact Hrun|]. split; [exact Hp|]. split; [exact Hinv|].
  destruct (invariant_preserved [enter 1%float] leave c d Hrun Hp)
    as (c' & d' & Hk & Hp' & Hpres & _ & _).
  exists c', d'. split; [exact Hk|]. split; [exact Hp'|exact (Hpres Hinv)].
Defined.

(** ** NULL rows *)

Lemma live_empty (d : WindowStatsData) : count d = 0 -> live d = Some [].
Proof. intros H. unfold live. by rewrite H. Qed.

(** C10. On every well-formed accumulator, a NULL row leaves [count],
    [sum], [sum_sq], [head], [tail] and the live values unchanged in both
    callbacks: [stats_step] changes nothing at all once the buffer exists
    (before that, it may allocate the buffer), and [stats_inverse] leaves
    the whole context as it is. *)
Theorem null_row_is_ignored (c : sqlite3_context) (d : WindowStatsData)
    (env : step_env) :
  pAgg c = Some d -> valid d ->
  (exists c' d',
     stats_step c [SqlNull] env = Some c' /\ pAgg c' = Some d' /\
     count d' = count d /\ sum d' = sum d /\ sum_sq d' = sum_sq d /\
     head d' = head d /\ tail d' = tail d /\ live d' = live d /\
     (values d <> None -> d' = d)) /\
  stats_inverse c [SqlNull] = Some c.
Proof.
  intros Hp [l Hh]. split.
  - unfold stats_step, sqlite3_aggregate_context. rewrite Hp. simpl.
    rewrite Hp.
    destruct (values d) as [buf|] eqn:Ev.
    + exists (mkContext (Some d) (result c)), d. by destruct c.
    + destruct Hh as [_ H]. rewrite Ev in H.
      destruct H as (Hc & Hhd & Htl & Hs & Hq).
      unfold init_window_stats_data.
      destruct (malloc _ _) as [blk|]; simpl.
      * eexists _, _. split; [reflexivity|]. simpl.
        split; [done|]. rewrite Hc, Hhd, Htl, Hs, Hq.
        repeat (split; [done|]). split; [|done].
        by rewrite !live_empty.
      * eexists _, _. split; [reflexivity|]. simpl.
        split; [done|]. repeat (split; [done|]). split; [|done].
        by rewrite !live_empty.
  - unfold stats_inverse, sqlite3_aggregate_context. rewrite Hp. simpl.
    rewrite Hp. destruct (values d); [|done].
    by destruct (count d <=? 0).
Qed.

Lemma null_row_is_ignored_witness :
  let c := default initial_context (run [enter 1%float] initial_context) in
  let d := default zero_stats (pAgg c) in
  pAgg c = Some d /\ valid d /\
  (exists c' d',
     stats_step c [SqlNull] plenty = Some c' /\ pAgg c' = Some d' /\
     count d' = count d /\ sum d' = sum d /\ sum_sq d' = sum_sq d /\
     head d' = head d /\ tail d' = tail d /\ live d' = live d /\
     (values d <> None -> d' = d)) /\
  stats_inverse c [SqlNull] = Some c.
Proof.
  intros c d.
  assert (Hp : pAgg c = Some d) by reflexivity.
  assert (Hv : valid d)
    by exact (reachable_valid [enter 1%float] c d eq_refl Hp).
  split; [exact Hp|]. split; [exact Hv|].
  exact (null_row_is_ignored c d plenty Hp Hv).
Defined.

(** ** Allocation failure *)

(** C5, as stated, fails: when the very first allocation is refused,
    [capacity] has already been set to 100. *)
Lemma failed_first_insert_sets_capacity :
  stats_step initial_context [SqlFloat 1%float] no_heap
  = Some (mkContext (Some (mkStats None 0 100 0 0 0%float 0%float))
                    ResultErrorNomem) /\
  capacity zero_stats = 0 /\
  mkStats None 0 100 0 0 0%float 0%float <> zero_stats.
Proof. split; [reflexivity|]. split; [reflexivity|]. discriminate. Qed.

Lemma init_ignores_capacity (d : WindowStatsData) (n : Z) (h : heap_reply) :
  init_window_stats_data (set_capacity n d) h = init_window_stats_data d h.
Proof. reflexivity. Qed.

(** C5, amended. If [stats_step] reports an allocation failure, no field of
    the accumulator has changed, except that a refused initial allocation
    leaves [capacity] set to [INITIAL_CAPACITY] (with [values] still NULL);
    a refused growth changes nothing.  The callbacks then behave as on the
    prior state: a later [stats_step] returns exactly what it would have
    returned on it, and [stats_inverse] still succeeds. *)
Theorem failed_insert_keeps_state (c c' : sqlite3_context)
    (d : WindowStatsData) (arg : sqlite3_value) (env : step_env) :
  pAgg c = Some d ->
  result c <> ResultErrorNomem ->
  stats_step c [arg] env = Some c' ->
  result c' = ResultErrorNomem ->
  exists d',
    pAgg c' = Some d' /\
    (values d <> None -> d' = d) /\
    (values d = None -> d' = set_capacity INITIAL_CAPACITY d) /\
    values d' = values d /\ count d' = count d /\
    head d' = head d /\ tail d' = tail d /\
    sum d' = sum d /\ sum_sq d' = sum_sq d /\
    (forall arg2 env2,
       stats_step c' [arg2] env2
       = stats_step (mkContext (Some d) ResultErrorNomem) [arg2] env2) /\
    (forall argv2,
       stats_inverse (mkContext (Some d) ResultErrorNomem) argv2
       = Some (mkContext (Some d) ResultErrorNomem) ->
       stats_inverse c' argv2 = Some c').
Proof.
  intros Hp Hr Hs Hn.
  assert (Hd' : (values d <> None /\
                 c' = mkContext (Some d) ResultErrorNomem) \/
                (values d = None /\
                 c' = mkContext (Some (set_capacity INITIAL_CAPACITY d))
                                ResultErrorNomem)).
  { revert Hs. unfold stats_step, sqlite3_aggregate_context.
    rewrite Hp. simpl. rewrite Hp.
    destruct (values d) as [buf|] eqn:Ev.
    - intros Hs. left. split; [done|].
      destruct arg; simpl in Hs; simplify_eq; simpl in *; try done.
      all: unfold grow_stats_buffer in Hs;
        repeat case_match; simplify_eq; simpl in *; done.
    - unfold init_window_stats_data.
      destruct (malloc _ _) as [blk|] eqn:Em; simpl.
      + intros Hs. exfalso.
        destruct arg; simpl in Hs; simplify_eq; simpl in *; try done.
        all: unfold add_to_circular_buffer in Hs; simpl in Hs;
          repeat case_match; simplify_eq; simpl in *; done.
      + intros [= <-]. right. split; [done|].
        unfold set_capacity. by rewrite Ev. }
  destruct Hd' as [[Ev ->]|[Ev ->]].
  - exists d. simpl. repeat (split; [done|]). done.
  - exists (set_capacity INITIAL_CAPACITY d). simpl.
    split; [done|]. split; [by rewrite Ev|].
    repeat (split; [done|]).
    split.
    + intros arg2 env2. unfold stats_step, sqlite3_aggregate_context.
      simpl. by rewrite Ev.
    + intros argv2 _. unfold stats_inverse, sqlite3_aggregate_context.
      simpl. by rewrite Ev.
Qed.

Lemma failed_insert_keeps_state_witness :
  exists d',
    pAgg (mkContext (Some (mkStats None 0 100 0 0 0%float 0%float))
                    ResultErrorNomem) = Some d' /\
    values d' = None /\ count d' = 0 /\ sum d' = 0%float /\
    sum_sq d' = 0%float.
Proof.
  destruct (failed_insert_keeps_state initial_context _ zero_stats
              (SqlFloat 1%float) no_heap eq_refl
              ltac:(discriminate) eq_refl eq_refl)
    as (d' & Hp & _ & _ & Hv & Hc & _ & _ & Hs & Hq & _).
  exists d'. done.
Defined.

(** ** Growth *)

Lemma drain_holds (l : list float) (d : WindowStatsData) :
  holds d l ->
  exists d', drain (length l) d = Some (l, d') /\ holds d' [].
Proof.
  revert d. induction l as [|x l IH]; intros d Hh; simpl.
  - by exists d.
  - destruct (remove_holds d x l Hh) as (d1 & -> & Hh1 & _).
    destruct (IH d1 Hh1) as (d' & -> & Hh'). by exists d'.
Qed.

(** C4. On every full accumulator ([count = capacity]) reachable from the
    initial state, if the allocator grants the request: growth allocates
    twice the capacity, copies the [count] live values, oldest first, to
    indices [0 .. count-1] of the new buffer, sets [head = 0] and
    [tail = count], and keeps the logical sequence; on the accumulator
    whose capacity is still zero the insert allocates [INITIAL_CAPACITY]
    instead.  After the insert the live values are the former ones, in
    insertion order, followed by the new one, and evicting returns them
    in that order. *)
Theorem growth_keeps_order (cs : list call) (c : sqlite3_context)
    (d : WindowStatsData) (arg : sqlite3_value) (env : step_env) :
  run cs initial_context = Some c -> pAgg c = Some d ->
  count d = capacity d ->
  numeric arg = true ->
  can_allocate (heap env) (Spec.grown (capacity d)) = true ->
  exists a,
    model_run cs (Some Spec.empty) = Some a /\
    live d = Some (Spec.items a) /\
    (values d <> None ->
     exists g bufg,
       grow_stats_buffer d (heap env) = Some (SQLITE_OK, g) /\
       values g = Some bufg /\
       Z.of_nat (length bufg) = 2 * capacity d /\
       capacity g = 2 * capacity d /\
       head g = 0 /\ tail g = count d /\ count g = count d /\
       (forall (i : nat) x, Spec.items a !! i = Some x -> bufg !! i = Some x) /\
       live g = Some (Spec.items a)) /\
    exists c' d' rest,
      stats_step c [arg] env = Some c' /\ pAgg c' = Some d' /\
      capacity d' = Spec.grown (capacity d) /\
      live d' = Some (Spec.items a ++ [sqlite3_value_double arg]) /\
      drain (length (Spec.items a) + 1) d'
      = Some (Spec.items a ++ [sqlite3_value_double arg], rest).
Proof.
  intros Hrun Hp Hfull Hnum Hcan.
  destruct (reachable cs) as (c0 & d0 & a & Hrun0 & _ & Ha & Hr). simplify_eq.
  destruct (refines_inv c d a Hr Hp) as (Hh & _ & _ & Hcap).
  pose proof (holds_length d _ Hh) as Hlen.
  exists a. split; [done|]. split; [by apply live_of_holds|].
  assert (Hcap' : Spec.cap a = capacity d).
  { destruct (values d) eqn:Ev; [done|].
    destruct (holds_no_buffer d _ Hh Ev) as [_ Hc]. lia. }
  split.
  - intros Hv.
    pose proof (holds_capacity_pos d _ Hh Hv) as Hpos.
    assert (Hcan2 : can_allocate (heap env)
                      (CAPACITY_GROWTH_FACTOR * capacity d) = true).
    { revert Hcan. unfold Spec.grown.
      destruct (capacity d =? 0) eqn:E; [apply Z.eqb_eq in E; lia|done]. }
    destruct (grow_granted d _ (heap env) Hh Hv Hcan2)
      as (g & bufg & Hg & Hhg & Hvg & Hlg & Hcg & Hhd & Htl & Hcn & _ & _ & Hcopy).
    exists g, bufg. unfold CAPACITY_GROWTH_FACTOR in *.
    repeat (split; [done|]). by apply live_of_holds.
  - destruct (step_refines c _ arg env Hr) as (c' & Hs & Hr').
    revert Hr'. unfold model_call, attach. rewrite Hnum.
    unfold Spec.insert, Spec.count.
    rewrite Hlen, Hfull, <- Hcap', Z.eqb_refl, Hcap', Hcan.
    intros Hr'.
    destruct (refines_pAgg c' _ Hr') as [d' Hp'].
    destruct (refines_inv c' d' _ Hr' Hp') as (Hh' & _ & _ & Hc').
    simpl in Hh', Hc'.
    destruct (drain_holds _ d' Hh') as (rest & Hdr & _).
    rewrite length_app in Hdr. simpl in Hdr.
    exists c', d', rest. split; [done|]. split; [done|].
    split; [|split; [by apply live_of_holds|done]].
    destruct (values d'); [done|].
    exfalso. apply (grown_nonzero (capacity d)); [|done].
    destruct Hh as [_ H]. destruct (values d); [|lia].
    destruct H as (_ & _ & (? & _) & _). lia.
Qed.

Lemma growth_keeps_order_witness :
  let cs := first_rows 100 in
  let arg := SqlInteger 101 in
  exists c d,
    run cs initial_context = Some c /\ pAgg c = Some d /\
    count d = 100 /\ capacity d = 100 /\
    exists a,
      model_run cs (Some Spec.empty) = Some a /\
      live d = Some (Spec.items a) /\
      (values d <> None ->
       exists g bufg,
         grow_stats_buffer d (heap plenty) = Some (SQLITE_OK, g) /\
         values g = Some bufg /\
         Z.of_nat (length bufg) = 2 * capacity d /\
         capacity g = 2 * capacity d /\
         head g = 0 /\ tail g = count d /\ count g = count d /\
         (forall (i : nat) x,
            Spec.items a !! i = Some x -> bufg !! i = Some x) /\
         live g = Some (Spec.items a)) /\
      exists c' d' rest,
        stats_step c [arg] plenty = Some c' /\ pAgg c' = Some d' /\
        capacity d' = Spec.grown (capacity d) /\
        live d' = Some (Spec.items a ++ [sqlite3_value_double arg]) /\
        drain (length (Spec.items a) + 1) d'
        = Some (Spec.items a ++ [sqlite3_value_double arg], rest).
Proof.
  intros cs arg. eexists _, _.
  split; [vm_compute; reflexivity|].
  split; [reflexivity|].
  split; [reflexivity|].
  split; [reflexivity|].
  eapply growth_keeps_order;
    [vm_compute; reflexivity|reflexivity..].
Defined.

(** ** The running aggregates *)

Lemma Qsum_app (l k : list Q) : (Qsum (l ++ k) == Qsum l + Qsum k)%Q.
Proof.
  induction l as [|x l IH]; simpl.
  - ring.
  - unfold Qsum in *. simpl. rewrite IH. ring.
Qed.

Lemma true_sum_snoc (l : list float) (v : float) :
  (true_sum (l ++ [v]) == true_sum l + F2Q v)%Q.
Proof.
  unfold true_sum. rewrite fmap_app, Qsum_app. simpl. unfold Qsum. simpl. ring.
Qed.

Lemma true_sum_squares_snoc (l : list float) (v : float) :
  (true_sum_squares (l ++ [v]) == true_sum_squares l + F2Q v * F2Q v)%Q.
Proof.
  unfold true_sum_squares. rewrite fmap_app, Qsum_app. simpl.
  unfold Qsum. simpl. ring.
Qed.

Lemma true_sum_cons (x : float) (l : list float) :
  (true_sum (x :: l) == F2Q x + true_sum l)%Q.
Proof. reflexivity. Qed.

Lemma true_sum_squares_cons (x : float) (l : list float) :
  (true_sum_squares (x :: l) == F2Q x * F2Q x + true_sum_squares l)%Q.
Proof. reflexivity. Qed.

Lemma exact_add_sound (a b : float) :
  exact_add a b = true -> (F2Q (a + b) == F2Q a + F2Q b)%Q.
Proof.
  unfold exact_add. intros H. apply andb_prop in H as [_ H].
  by apply Qeq_bool_iff.
Qed.

Lemma exact_sub_sound (a b : float) :
  exact_sub a b = true -> (F2Q (a - b) == F2Q a - F2Q b)%Q.
Proof.
  unfold exact_sub. intros H. apply andb_prop in H as [_ H].
  by apply Qeq_bool_iff.
Qed.

Lemma exact_mul_sound (a b : float) :
  exact_mul a b = true -> (F2Q (a * b) == F2Q a * F2Q b)%Q.
Proof.
  unfold exact_mul. intros H. apply andb_prop in H as [_ H].
  by apply Qeq_bool_iff.
Qed.

Lemma aggregates_exact_empty : aggregates_exact (Some Spec.empty).
Proof. split; vm_compute; reflexivity. Qed.

Lemma exact_call_sound (k : call) (m : option Spec.acc) :
  exact_call k m = true -> aggregates_exact m ->
  aggregates_exact (model_call k m).
Proof.
  destruct k as [arg env|arg]; simpl.
  - assert (He : aggregates_exact m -> aggregates_exact (attach m env)).
    { unfold attach. destruct m; [done|]. intros _.
      destruct (agg_ok env); [|done]. apply aggregates_exact_empty. }
    intros Hx Hm. specialize (He Hm). revert Hx He.
    destruct (attach m env) as [a|]; [|done].
    destruct (numeric arg).
    + unfold Spec.insert.
      set (v := sqlite3_value_double arg).
      destruct (Spec.count a =? Spec.cap a);
        [destruct (can_allocate _ _)|]; try done.
      all: intros Hx [Hs Hq]; simpl.
      all: apply andb_prop in Hx as [Hx H3]; apply andb_prop in Hx as [H1 H2].
      all: apply exact_add_sound in H1, H3; apply exact_mul_sound in H2.
      all: rewrite true_sum_snoc, true_sum_squares_snoc.
      all: split; [by rewrite H1, Hs|by rewrite H3, H2, Hq].
    + intros _. unfold Spec.prepare.
      by destruct (_ && _).
  - destruct m as [a|]; [|done].
    unfold Spec.evict. 
    destruct (Spec.items a) as [|x rest] eqn:Ei.
    { intros _ [Hs Hq]. destruct (sqlite3_value_type arg); simpl; by split. }
    assert (Hgo : exact_sub (Spec.sum a) x && exact_mul x x
                  && exact_sub (Spec.sumSquares a) (x * x) = true ->
                  aggregates_exact (Some a) ->
                  aggregates_exact
                    (Some (Spec.mk rest (Spec.cap a) (Spec.sum a - x)
                                   (Spec.sumSquares a - x * x)))).
    { intros Hx [Hs Hq]. simpl. rewrite Ei in Hs, Hq.
      apply andb_prop in Hx as [Hx H3]; apply andb_prop in Hx as [H1 H2].
      apply exact_sub_sound in H1, H3; apply exact_mul_sound in H2.
      rewrite true_sum_cons in Hs. rewrite true_sum_squares_cons in Hq.
      split; [rewrite H1, Hs; ring|rewrite H3, H2, Hq; ring]. }
    destruct (sqlite3_value_type arg); simpl; try exact Hgo.
    by intros _ H.
Qed.

Lemma exact_run_sound (cs : list call) (m : option Spec.acc) :
  exact_run cs m = true -> aggregates_exact m ->
  aggregates_exact (model_run cs m).
Proof.
  revert m. induction cs as [|k cs IH]; intros m; simpl; [done|].
  intros Hx Hm. apply andb_prop in Hx as [H1 H2].
  apply IH; [done|]. by apply exact_call_sound.
Qed.

(** C1, as stated, fails: after inserting 1e16 and 1 and evicting the
    1e16, the only live value is 1 but [sum] and [sum_sq] are 0. *)
Lemma running_sum_drifts :
  exists c d,
    run [enter 1e16%float; enter 1%float; leave] initial_context = Some c /\
    pAgg c = Some d /\
    live d = Some [1%float] /\
    sum d = 0%float /\ sum_sq d = 0%float /\
    fresh_sum [1%float] = 1%float /\
    fresh_sum_squares [1%float] = 1%float /\
    sum d <> fresh_sum [1%float] /\
    sum_sq d <> fresh_sum_squares [1%float].
Proof.
  eexists _, _. split; [vm_compute; reflexivity|]. split; [reflexivity|].
  split; [reflexivity|]. split; [reflexivity|]. split; [reflexivity|].
  split; [reflexivity|]. split; [reflexivity|].
  split; intros H; apply (f_equal is_zero) in H; vm_compute in H;
    discriminate.
Qed.

(** C1, amended. Every sequence of step and inverse calls from the
    initial state is defined and leaves an accumulator whose live values
    are those of the specification's FIFO accumulator (the inserted values
    not yet evicted, oldest first), whose [count] is their number and
    whose [sum] and [sum_sq] are the specification's running aggregates.
    A further step with a numeric value [v] appends [v] to the live values
    and performs the single additions [sum + v] and [sum_sq + v * v],
    unless a buffer it needs is refused; a further inverse with a non-NULL
    argument, the live values being [x :: rest], leaves [rest] and
    performs the single subtractions [sum - x] and [sum_sq - x * x]; every
    other call leaves the live values and both aggregates untouched.  If
    moreover every floating-point update of the sequence is exact, [sum]
    is the sum of exactly the live values and [sum_sq] the sum of their
    squares. *)
Theorem running_aggregates_maintained (cs : list call) (k : call) :
  exists c d a c' d',
    run cs initial_context = Some c /\ pAgg c = Some d /\
    model_run cs (Some Spec.empty) = Some a /\
    live d = Some (Spec.items a) /\
    count d = Z.of_nat (length (Spec.items a)) /\
    sum d = Spec.sum a /\ sum_sq d = Spec.sumSquares a /\
    do_call k c = Some c' /\ pAgg c' = Some d' /\
    match k with
    | Step arg env =>
        let v := sqlite3_value_double arg in
        if numeric arg
           && (negb (Spec.count a =? Spec.cap a)
               || can_allocate (heap env) (Spec.grown (Spec.cap a)))
        then
          live d' = Some (Spec.items a ++ [v]) /\
          sum d' = (sum d + v)%float /\
          sum_sq d' = (sum_sq d + v * v)%float
        else live d' = live d /\ sum d' = sum d /\ sum_sq d' = sum_sq d
    | Inverse arg =>
        match sqlite3_value_type arg, Spec.items a with
        | SQLITE_NULL, _ | _, [] =>
            live d' = live d /\ sum d' = sum d /\ sum_sq d' = sum_sq d
        | _, x :: rest =>
            live d' = Some rest /\
            sum d' = (sum d - x)%float /\
            sum_sq d' = (sum_sq d - x * x)%float
        end
    end /\
    (exact_run cs (Some Spec.empty) = true ->
     (F2Q (sum d) == true_sum (Spec.items a))%Q /\
     (F2Q (sum_sq d) == true_sum_squares (Spec.items a))%Q).
Proof.
  destruct (reachable cs) as (c & d & a & Hrun & Hp & Ha & Hr).
  destruct (refines_inv c d a Hr Hp) as (Hh & Hs & Hq & _).
  destruct (call_refines k c _ Hr) as (c' & Hk & Hr').
  destruct (model_call_Some k a) as [a' Ha'].
  rewrite Ha' in Hr'.
  destruct (refines_pAgg c' a' Hr') as [d' Hp'].
  destruct (refines_inv c' d' a' Hr' Hp') as (Hh' & Hs' & Hq' & _).
  pose proof (live_of_holds d _ Hh) as Hl.
  pose proof (live_of_holds d' _ Hh') as Hl'.
  exists c, d, a, c', d'. repeat (split; [done|]).
  split; [symmetry; by apply holds_length|].
  repeat (split; [done|]).
  split.
  - rewrite Hl, Hl', Hs, Hs', Hq, Hq'. clear - Ha'.
    destruct k as [arg env|arg]; simpl in Ha'.
    + destruct (numeric arg); simpl.
      * unfold Spec.insert in Ha'.
        destruct (Spec.count a =? Spec.cap a);
          [destruct (can_allocate _ _)|]; by simplify_eq.
      * unfold Spec.prepare in Ha'. destruct (_ && _); by simplify_eq.
    + unfold Spec.evict in Ha'.
      destruct (Spec.items a) as [|x rest] eqn:Ei.
      * destruct (sqlite3_value_type arg); simplify_eq; simpl;
          by rewrite ?Ei.
      * destruct (sqlite3_value_type arg); simplify_eq; simpl;
          by rewrite ?Ei.
  - intros Hx.
    pose proof (exact_run_sound cs _ Hx aggregates_exact_empty) as Hex.
    rewrite Ha in Hex. destruct Hex as [H1 H2]. by rewrite Hs, Hq.
Qed.

Lemma running_aggregates_maintained_witness :
  let cs := map enter [1; 2; 3; 4; 5]%float in
  exact_run cs (Some Spec.empty) = true /\
  exists c d c' d',
    run cs initial_context = Some c /\ pAgg c = Some d /\
    live d = Some [1; 2; 3; 4; 5]%float /\
    (F2Q (sum d) == true_sum [1; 2; 3; 4; 5]%float)%Q /\
    (F2Q (sum_sq d) == true_sum_squares [1; 2; 3; 4; 5]%float)%Q /\
    do_call leave c = Some c' /\ pAgg c' = Some d' /\
    live d' = Some [2; 3; 4; 5]%float /\
    sum d' = (sum d - 1)%float /\ sum_sq d' = (sum_sq d - 1 * 1)%float.
Proof.
  intros cs.
  assert (Hx : exact_run cs (Some Spec.empty) = true)
    by (vm_compute; reflexivity).
  split; [exact Hx|].
  assert (Hm : exists a0, model_run cs (Some Spec.empty) = Some a0 /\
                          Spec.items a0 = [1; 2; 3; 4; 5]%float)
    by (eexists; split; [vm_compute; reflexivity|reflexivity]).
  destruct Hm as (a0 & Hm & Ea).
  destruct (running_aggregates_maintained cs leave)
    as (c & d & a & c' & d' & Hrun & Hp & Ha & Hl & _ & _ & _ & Hk & Hp'
        & Hstep & Hex).
  rewrite Hm in Ha. injection Ha as <-.
  rewrite Ea in Hl, Hex, Hstep. destruct (Hex Hx) as [H1 H2].
  cbn [sqlite3_value_type leave] in Hstep.
  destruct Hstep as (Hd' & Hs & Hq).
  exists c, d, c', d'.
  split; [exact Hrun|]. split; [exact Hp|]. split; [exact Hl|].
  split; [exact H1|]. split; [exact H2|]. split; [exact Hk|].
  split; [exact Hp'|]. split; [exact Hd'|]. split; [exact Hs|exact Hq].
Defined.

(** ** Where the statistics are defined *)

(** C7, as stated, fails.  Two finite values whose squares overflow give
    [count = 2] and a NaN sample variance; three copies of the double
    nearest to 0.1 give negative variances. *)
Lemma variance_nan_or_negative :
  (exists c d,
     run (map enter [0x1p+600; 0x1p+600]%float) initial_context = Some c /\
     pAgg c = Some d /\ count d = 2 /\
     is_finite 0x1p+600 = true /\
     is_nan (calculate_variance_sample d) = true /\
     is_nan (calculate_variance_population d) = true) /\
  (exists c d,
     run (map enter [0x1.999999999999ap-4; 0x1.999999999999ap-4;
                     0x1.999999999999ap-4]%float) initial_context = Some c /\
     pAgg c = Some d /\ count d = 3 /\
     is_finite 0x1.999999999999ap-4 = true /\
     (calculate_variance_sample d <? 0)%float = true /\
     (calculate_variance_population d <? 0)%float = true).
Proof.
  split; eexists _, _.
  all: split; [vm_compute; reflexivity|].
  all: repeat split; vm_compute; reflexivity.
Qed.

Lemma set_result_null_or_finite (context : sqlite3_context) (r : float) :
  null_or_finite (result (set_result context r)).
Proof.
  unfold set_result, isnan, isinf.
  destruct (is_nan r || is_infinity r) eqn:E; simpl; [done|].
  unfold is_finite. by rewrite E.
Qed.

(** C7, amended. For every accumulator built by step and inverse calls:
    the sample variance is NaN when [count] is 0 or 1 and the population
    variance is NaN when [count] is 0.  As long as the running aggregates
    have not overflowed ([sum] is not NaN and [sum_sq] is finite) this is
    exact: the sample variance is NaN exactly when [count < 2] and the
    population variance exactly when [count < 1].  Below the minimum count
    the value callbacks yield NULL, and whatever the count they yield NULL
    or a finite number. *)
Theorem variance_nan_exactly_below_minimum (cs : list call) :
  exists c d,
    run cs initial_context = Some c /\ pAgg c = Some d /\
    (count d < 2 -> calculate_variance_sample d = NAN) /\
    (count d < 1 -> calculate_variance_population d = NAN) /\
    (is_nan (sum d) = false -> is_finite (sum_sq d) = true ->
     (is_nan (calculate_variance_sample d) = true <-> count d < 2) /\
     (is_nan (calculate_variance_population d) = true <-> count d < 1)) /\
    (count d < 2 -> result (variance_samp_value c) = ResultNull) /\
    (count d < 1 -> result (variance_pop_value c) = ResultNull) /\
    null_or_finite (result (variance_samp_value c)) /\
    null_or_finite (result (variance_pop_value c)).
Proof.
  destruct (reachable cs) as (c & d & a & Hrun & Hp & _ & _).
  exists c, d. split; [done|]. split; [done|].
  assert (Hb : 0 <= count d < 2 ^ 60).
  { destruct (reachable_valid cs c d Hrun Hp) as [l [Hlen Hh]].
    destruct (values d).
    - destruct Hh as (_ & Hm & (Hc & _) & _). rewrite MAX_CAPACITY_eq in Hm.
      lia.
    - destruct Hh as (-> & _). lia. }
  assert (H2 : count d < 2 -> (count d <? 2) = true)
    by (intros; by apply Z.ltb_lt).
  assert (H1 : count d < 1 -> (count d <? 1) = true)
    by (intros; by apply Z.ltb_lt).
  assert (Hpop : is_nan (sum d) = false -> is_finite (sum_sq d) = true ->
                 1 <= count d ->
                 is_nan (sum_sq d / double_of_Z (count d)
                         - sum d / double_of_Z (count d)
                           * (sum d / double_of_Z (count d))) = false).
  { intros Hs Hq Hc. apply sub_finite_not_nan.
    - apply div_by_count_finite; [done|lia].
    - apply square_not_nan, div_not_nan; [done|].
      apply double_of_Z_nonzero_finite. lia. }
  unfold calculate_variance_sample, calculate_variance_population,
    MIN_COUNT_SAMPLE, MIN_COUNT_POPULATION.
  split; [intros H; by rewrite H2|]. split; [intros H; by rewrite H1|].
  split.
  { intros Hs Hq. split.
    - destruct (count d <? 2) eqn:E.
      + apply Z.ltb_lt in E. by split.
      + apply Z.ltb_ge in E. split; [|lia]. intros Hn. exfalso.
        rewrite size_wrap_small in Hn by lia.
        rewrite mul_by_nonzero_finite_not_nan in Hn; [done| |].
        * apply Hpop; [done|done|lia].
        * destruct (double_of_Z_finite (count d) ltac:(lia))
            as (m1 & e1 & Hx1 & Hk1 & Hl1).
          destruct (double_of_Z_finite (count d - 1) ltac:(lia))
            as (m2 & e2 & Hx2 & Hk2 & Hl2).
          apply (div_nonzero_finite _ _ _ _ _ _ _ _ Hx1 Hx2); lia.
    - destruct (count d <? 1) eqn:E.
      + apply Z.ltb_lt in E. by split.
      + apply Z.ltb_ge in E. split; [|lia]. intros Hn.
        rewrite Hpop in Hn; [done|done|done|lia]. }
  unfold variance_samp_value, variance_pop_value, stats_value_helper,
    sqlite3_aggregate_context, MIN_COUNT_SAMPLE, MIN_COUNT_POPULATION.
  rewrite Hp. simpl. rewrite Hp.
  change (size_wrap 2) with 2. change (size_wrap 1) with 1.
  destruct (values d).
  - split; [intros H; by rewrite H2|]. split; [intros H; by rewrite H1|].
    split.
    + destruct (count d <? 2) eqn:E; [done|]. apply set_result_null_or_finite.
    + destruct (count d <? 1) eqn:E; [done|]. apply set_result_null_or_finite.
  - done.
Qed.

Lemma variance_nan_exactly_below_minimum_witness :
  exists c d,
    run (first_rows 3) initial_context = Some c /\ pAgg c = Some d /\
    count d = 3 /\
    is_nan (sum d) = false /\ is_finite (sum_sq d) = true /\
    is_nan (calculate_variance_sample d) = false /\
    is_nan (calculate_variance_population d) = false /\
    null_or_finite (result (variance_samp_value c)) /\
    null_or_finite (result (variance_pop_value c)).
Proof.
  destruct (variance_nan_exactly_below_minimum (first_rows 3))
    as (c & d & Hrun & Hp & _ & _ & Hiff & _ & _ & Hv1 & Hv2).
  exists c, d. split; [done|]. split; [done|].
  vm_compute in Hrun. injection Hrun as <-.
  vm_compute in Hp. injection Hp as <-.
  destruct (Hiff eq_refl eq_refl) as [[Hsamp _] [Hpop _]].
  split; [reflexivity|]. split; [reflexivity|]. split; [reflexivity|].
  split.
  { destruct (is_nan (calculate_variance_sample _)); [|done].
    specialize (Hsamp eq_refl). simpl in Hsamp. lia. }
  split.
  { destruct (is_nan (calculate_variance_population _)); [|done].
    specialize (Hpop eq_refl). simpl in Hpop. lia. }
  split; [exact Hv1|exact Hv2].
Defined.

(** ** Insert then evict *)

(** C8, as stated, fails: for the finite value 2^600 the square overflows,
    and after the insert and the evict [sum_sq] is NaN. *)
Lemma insert_evict_overflow :
  exists c d,
    run [enter 0x1p+600%float; leave] initial_context = Some c /\
    pAgg c = Some d /\
    is_finite 0x1p+600 = true /\
    count d = 0 /\ sum d = 0%float /\
    is_nan (sum_sq d) = true /\ sum_sq d <> 0%float.
Proof.
  eexists _, _. split; [vm_compute; reflexivity|].
  repeat (split; [vm_compute; reflexivity|]).
  intros H. apply (f_equal is_nan) in H. vm_compute in H. discriminate.
Qed.

(** C8, amended. For every numeric row whose double [v] has a finite
    square, from the initial empty accumulator a granted insert of [v]
    followed by an evict leaves [count = 0], [sum = 0] and [sum_sq = 0]
    exactly. *)
Theorem insert_then_evict (arg arg' : sqlite3_value) (env : step_env) :
  numeric arg = true ->
  sqlite3_value_type arg' <> SQLITE_NULL ->
  can_allocate (heap env) INITIAL_CAPACITY = true ->
  is_finite (sqlite3_value_double arg * sqlite3_value_double arg) = true ->
  exists c1 c2 d2,
    stats_step initial_context [arg] env = Some c1 /\
    stats_inverse c1 [arg'] = Some c2 /\
    pAgg c2 = Some d2 /\
    count d2 = 0 /\ sum d2 = 0%float /\ sum_sq d2 = 0%float.
Proof.
  intros Hnum Harg' Hcan Hfin.
  destruct (step_refines _ _ arg env refines_initial) as (c1 & Hs & Hr1).
  destruct (inverse_refines _ _ arg' Hr1) as (c2 & Hi & Hr2).
  revert Hr2. unfold model_call, attach. rewrite Hnum.
  unfold Spec.insert. simpl.
  change (Spec.grown 0) with INITIAL_CAPACITY. rewrite Hcan.
  assert (Hev : forall a, match sqlite3_value_type arg' with
                          | SQLITE_NULL => Some a
                          | _ => Some (snd (Spec.evict a))
                          end = Some (snd (Spec.evict a))).
  { intros a. by destruct (sqlite3_value_type arg'). }
  rewrite Hev. unfold Spec.evict. simpl. intros Hr2.
  destruct (refines_pAgg c2 _ Hr2) as [d2 Hp2].
  destruct (refines_inv c2 d2 _ Hr2 Hp2) as (Hh & Hsum & Hsq & _).
  simpl in Hh, Hsum, Hsq.
  exists c1, c2, d2. repeat (split; [done|]).
  split; [symmetry; by apply (holds_length d2 [])|].
  split.
  - rewrite Hsum. apply finite_add_sub_cancel. by apply finite_square.
  - rewrite Hsq. by apply finite_add_sub_cancel.
Qed.

Lemma insert_then_evict_witness :
  exists c1 c2 d2,
    stats_step initial_context [SqlInteger 5] plenty = Some c1 /\
    stats_inverse c1 [SqlInteger 5] = Some c2 /\
    pAgg c2 = Some d2 /\
    count d2 = 0 /\ sum d2 = 0%float /\ sum_sq d2 = 0%float.
Proof.
  apply (insert_then_evict (SqlInteger 5) (SqlInteger 5) plenty).
  - reflexivity.
  - discriminate.
  - reflexivity.
  - reflexivity.
Defined.

(** * Further properties of the code *)

(** ** Value and final callbacks *)

(** X1. [stats_value_helper] and [stats_final_helper] compute the same
    result on every context, and neither touches the aggregate's
    memory: a running value and the final value read the same state. *)
Theorem value_and_final_agree (c : sqlite3_context) (func : stats_func)
    (min_count : Z) :
  stats_value_helper c func min_count = stats_final_helper c func min_count /\
  pAgg (stats_value_helper c func min_count) = pAgg c.
Proof.
  unfold stats_value_helper, stats_final_helper, sqlite3_aggregate_context.
  destruct (pAgg c) as [d|] eqn:Hp; simpl; rewrite ?Hp; [|done].
  destruct (values d); [|done].
  rewrite (Z.ltb_antisym (size_wrap min_count) (count d)).
  unfold set_result.
  by repeat case_match.
Qed.

(** ** Standard deviations *)

Lemma is_nan_eq (x : float) : is_nan x = true -> x = nan.
Proof.
  unfold is_nan. rewrite FloatAxioms.eqb_spec. intros H.
  apply Prim2SF_inj. change (Prim2SF nan) with S754_nan.
  destruct (Prim2SF x) as [s|[|]| |s m e]; try done; exfalso; revert H.
  unfold SFeqb, SFcompare. rewrite Z.compare_refl.
  fold (Pos.compare m m). rewrite Pos.compare_refl. by destruct s.
Qed.

(** X2. Each standard deviation is the square root of its variance; the
    explicit NaN test in the source changes nothing, since the square
    root of NaN is NaN. *)
Theorem stddev_is_sqrt_of_variance (d : WindowStatsData) :
  calculate_stddev_sample d = sqrt (calculate_variance_sample d) /\
  calculate_stddev_population d = sqrt (calculate_variance_population d).
Proof.
  unfold calculate_stddev_sample, calculate_stddev_population, isnan, NAN.
  split.
  - destruct (is_nan (calculate_variance_sample d)) eqn:E; [|done].
    by rewrite (is_nan_eq _ E).
  - destruct (is_nan (calculate_variance_population d)) eqn:E; [|done].
    by rewrite (is_nan_eq _ E).
Qed.

Lemma sqrt_of_negative (x : float) :
  (x <? 0)%float = true -> sqrt x = nan.
Proof.
  rewrite ltb_spec. change (Prim2SF 0) with (S754_zero false).
  intros H. apply Prim2SF_inj. rewrite sqrt_spec.
  change (Prim2SF nan) with S754_nan.
  by destruct (Prim2SF x) as [s|[|]| |[|] m e].
Qed.

Lemma sqrt_nonnegative (x : float) :
  is_nan (sqrt x) = false -> (0 <=? sqrt x)%float = true.
Proof.
  unfold is_nan. rewrite leb_spec, FloatAxioms.eqb_spec, sqrt_spec.
  change (Prim2SF 0) with (S754_zero false).
  destruct (Prim2SF x) as [s|[|]| |[|] m e]; try done.
  unfold SF64sqrt, SFsqrt.
  destruct (SFsqrt_core_binary _ _ _ _) as [[mz ez] lz].
  unfold binary_round_aux.
  by repeat case_match.
Qed.

Lemma stddev_result (c : sqlite3_context) (variance : stats_func)
    (stddev : stats_func) (min_count : Z) :
  (forall d, stddev d = sqrt (variance d)) ->
  match result (stats_value_helper c stddev min_count) with
  | ResultNull => True
  | ResultDouble r => is_finite r = true /\ (0 <=? r)%float = true
  | _ => False
  end /\
  (forall d, pAgg c = Some d -> (variance d <? 0)%float = true ->
             result (stats_value_helper c stddev min_count) = ResultNull).
Proof.
  intros Hs.
  unfold stats_value_helper, sqlite3_aggregate_context.
  destruct (pAgg c) as [d|] eqn:Hp; simpl; rewrite ?Hp; [|done].
  destruct (values d); [|split; [done|by intros ? [= <-]]].
  destruct (count d <? size_wrap min_count);
    [split; [done|by intros ? [= <-]]|].
  unfold set_result, isnan, isinf. rewrite Hs.
  split.
  - destruct (is_nan (sqrt (variance d))) eqn:En; simpl; [done|].
    destruct (is_infinity (sqrt (variance d))) eqn:Ei; simpl; [done|].
    split; [unfold is_finite; by rewrite En, Ei|by apply sqrt_nonnegative].
  - intros ? [= <-] Hneg. by rewrite (sqrt_of_negative _ Hneg).
Qed.

(** X3. The value a standard-deviation callback hands to SQLite is NULL
    or a finite double that is not negative; it is NULL whenever the
    variance is negative (which rounding can produce). *)
Theorem stddev_never_negative (c : sqlite3_context) :
  match result (stddev_samp_value c) with
  | ResultNull => True
  | ResultDouble r => is_finite r = true /\ (0 <=? r)%float = true
  | _ => False
  end /\
  match result (stddev_pop_value c) with
  | ResultNull => True
  | ResultDouble r => is_finite r = true /\ (0 <=? r)%float = true
  | _ => False
  end /\
  (forall d, pAgg c = Some d ->
             (calculate_variance_sample d <? 0)%float = true ->
             result (stddev_samp_value c) = ResultNull) /\
  (forall d, pAgg c = Some d ->
             (calculate_variance_population d <? 0)%float = true ->
             result (stddev_pop_value c) = ResultNull).
Proof.
  assert (Hs : forall d, calculate_stddev_sample d
                         = sqrt (calculate_variance_sample d)).
  { intros d. unfold calculate_stddev_sample, isnan, NAN.
    destruct (is_nan (calculate_variance_sample d)) eqn:E; [|done].
    by rewrite (is_nan_eq _ E). }
  assert (Hq : forall d, calculate_stddev_population d
                         = sqrt (calculate_variance_population d)).
  { intros d. unfold calculate_stddev_population, isnan, NAN.
    destruct (is_nan (calculate_variance_population d)) eqn:E; [|done].
    by rewrite (is_nan_eq _ E). }
  destruct (stddev_result c _ _ MIN_COUNT_SAMPLE Hs) as [H1 H2].
  destruct (stddev_result c _ _ MIN_COUNT_POPULATION Hq) as [H3 H4].
  done.
Qed.

(** ** The leaving row *)



(** ** Every run is defined and implements the FIFO accumulator *)

(** X5. Whatever the rows and whatever the allocators answer, a sequence
    of step and inverse calls from a context without aggregate memory
    never reaches undefined behaviour, and it leaves either no
    accumulator (the aggregate's memory was refused) or a well-formed one
    whose live values, [count], [sum] and [sum_sq] are those of the
    specification's FIFO accumulator. *)
Theorem callbacks_implement_fifo (cs : list call) :
  exists c,
    run cs fresh_context = Some c /\
    match pAgg c, model_run cs None with
    | Some d, Some a =>
        valid d /\
        live d = Some (Spec.items a) /\
        count d = Z.of_nat (length (Spec.items a)) /\
        sum d = Spec.sum a /\ sum_sq d = Spec.sumSquares a
    | None, None => True
    | _, _ => False
    end.
Proof.
  destruct (run_refines cs _ _ refines_fresh_context) as (c & Hrun & Hr).
  exists c. split; [done|].
  unfold refines in Hr.
  destruct (pAgg c) as [d|], (model_run cs None) as [a|]; try done.
  destruct Hr as (Hh & Hs & Hq & _).
  split; [by exists (Spec.items a)|].
  split; [by apply live_of_holds|].
  split; [symmetry; by apply holds_length|done].
Qed.

(** ** Capacity *)

Lemma model_step_cap (arg : sqlite3_value) (env : step_env)
    (a a' : Spec.acc) :
  model_call (Step arg env) (Some a) = Some a' ->
  Spec.cap a' = Spec.cap a \/ Spec.cap a' = Spec.grown (Spec.cap a).
Proof.
  simpl. unfold Spec.insert, Spec.prepare, Spec.grown.
  repeat case_match; intros; simplify_eq; simpl; eauto.
  all: try (apply andb_prop in H0 as [H0 _]; rewrite H0 in *; simplify_eq).
  all: eauto.
Qed.

Lemma model_inverse_cap (arg : sqlite3_value) (a a' : Spec.acc) :
  model_call (Inverse arg) (Some a) = Some a' -> Spec.cap a' = Spec.cap a.
Proof.
  simpl. unfold Spec.evict.
  repeat case_match; intros; simplify_eq; simpl; eauto.
Qed.

Lemma inverse_without_buffer (c : sqlite3_context) (d : WindowStatsData)
    (argv : list sqlite3_value) :
  pAgg c = Some d -> values d = None -> stats_inverse c argv = Some c.
Proof.
  intros Hp Ev. unfold stats_inverse, sqlite3_aggregate_context.
  rewrite Hp. simpl. by rewrite Hp, Ev.
Qed.

(** One call on a well-formed accumulator: what happens to [capacity]. *)
Lemma call_capacity (k : call) (c c' : sqlite3_context)
    (d d' : WindowStatsData) (a : Spec.acc) :
  refines c (Some a) -> pAgg c = Some d -> capacity_shape d ->
  do_call k c = Some c' -> pAgg c' = Some d' ->
  capacity_shape d' /\
  capacity d <= capacity d' /\
  (capacity d' = capacity d \/ capacity d' = Spec.grown (capacity d)) /\
  (is_step k = false -> capacity d' = capacity d).
Proof.
  intros Hr Hp Hsh Hk Hp'.
  destruct (refines_inv c d a Hr Hp) as (Hh & _ & _ & Hcap).
  destruct (call_refines k c _ Hr) as (c1 & Hk1 & Hr'). simplify_eq.
  destruct (model_call_Some k a) as [a' Ha']. rewrite Ha' in Hr'.
  destruct (refines_inv c' d' a' Hr' Hp') as (Hh' & _ & _ & Hcap').
  unfold capacity_shape in *.
  destruct (values d) as [buf|] eqn:Ev.
  - (* the buffer exists: the capacity is the model's *)
    assert (Hv : values d <> None) by (by rewrite Ev).
    pose proof (holds_capacity_pos d _ Hh Hv) as Hpos.
    pose proof (call_keeps_buffer k c c' d d' a Hr Hp Hv Hk Hp') as Hv'.
    destruct (values d') as [buf'|] eqn:Ev'; [|done].
    destruct Hsh as [n Hn].
    destruct k as [arg env|arg].
    + destruct (model_step_cap arg env a a' Ha') as [E|E].
      * split; [exists n; lia|]. split; [lia|]. split; [left; lia|done].
      * assert (Hg : Spec.grown (Spec.cap a) = 2 * Spec.cap a).
        { unfold Spec.grown, CAPACITY_GROWTH_FACTOR.
          destruct (Spec.cap a =? 0) eqn:E0; [apply Z.eqb_eq in E0; lia|done]. }
        split.
        { exists (S n). rewrite Nat2Z.inj_succ, Z.pow_succ_r by lia. lia. }
        split; [lia|]. split; [right; congruence|done].
    + pose proof (model_inverse_cap arg a a' Ha') as E.
      split; [exists n; lia|]. split; [lia|]. split; [left; lia|]. lia.
  - (* no buffer yet *)
    destruct k as [arg env|arg].
    2:{ simpl in Hk. rewrite (inverse_without_buffer c d [arg] Hp Ev) in Hk.
        simplify_eq. rewrite Ev. split; [done|]. split; [lia|].
        split; [by left|done]. }
    destruct (values d') as [buf'|] eqn:Ev'.
    + assert (Hv' : values d' <> None) by (by rewrite Ev').
      pose proof (holds_capacity_pos d' _ Hh' Hv') as Hpos'.
      destruct (model_step_cap arg env a a' Ha') as [E|E]; [lia|].
      rewrite Hcap in E. change (Spec.grown 0) with INITIAL_CAPACITY in E.
      split; [exists 0%nat; rewrite Hcap', E; simpl; lia|].
      unfold INITIAL_CAPACITY in *.
      split; [lia|]. split; [|done].
      destruct Hsh as [->| ->]; [right|left]; rewrite Hcap', E; done.
    + destruct (call_without_buffer _ c c' d d' Hp Ev Hk Hp' Ev')
        as (_ & _ & _ & Hc).
      unfold INITIAL_CAPACITY in *.
      split; [lia|]. split; [lia|]. split; [|done].
      destruct Hsh as [E0|E0], Hc as [E1|E1]; rewrite ?E0, ?E1; eauto.
Qed.

Lemma run_capacity_shape (cs : list call) (c0 c : sqlite3_context)
    (d0 d : WindowStatsData) (a0 : Spec.acc) :
  refines c0 (Some a0) -> pAgg c0 = Some d0 -> capacity_shape d0 ->
  run cs c0 = Some c -> pAgg c = Some d ->
  capacity_shape d /\ capacity d0 <= capacity d.
Proof.
  revert c0 d0 a0. induction cs as [|k cs IH]; intros c0 d0 a0 Hr Hp Hsh.
  - simpl. intros [= <-] Hp'. simplify_eq. split; [done|lia].
  - simpl. destruct (call_refines k c0 _ Hr) as (c1 & Hk & Hr1).
    rewrite Hk. destruct (model_call_Some k a0) as [a1 Ha1].
    rewrite Ha1 in Hr1.
    destruct (refines_pAgg c1 a1 Hr1) as [d1 Hp1].
    destruct (call_capacity k c0 c1 d0 d1 a0 Hr Hp Hsh Hk Hp1)
      as (Hsh1 & Hle & _).
    intros Hrun Hpd.
    destruct (IH c1 d1 a1 Hr1 Hp1 Hsh1 Hrun Hpd) as [Hshd Hle'].
    split; [done|lia].
Qed.

(** X6. The capacity never shrinks.  On every accumulator reachable from
    the initial empty state a call leaves [capacity] as it is or replaces
    it by the grown capacity (twice the old one, or [INITIAL_CAPACITY]
    when it was zero); [stats_inverse] never changes it. *)
Theorem capacity_only_grows (cs : list call) (k : call)
    (c : sqlite3_context) (d : WindowStatsData) :
  run cs initial_context = Some c -> pAgg c = Some d ->
  exists c' d',
    do_call k c = Some c' /\ pAgg c' = Some d' /\
    capacity d <= capacity d' /\
    (capacity d' = capacity d \/ capacity d' = Spec.grown (capacity d)) /\
    (is_step k = false -> capacity d' = capacity d).
Proof.
  intros Hrun Hp.
  destruct (reachable cs) as (c0 & d0 & a & Hrun0 & _ & _ & Hr). simplify_eq.
  destruct (call_refines k c _ Hr) as (c' & Hk & Hr').
  destruct (model_call_Some k a) as [a' Ha']. rewrite Ha' in Hr'.
  destruct (refines_pAgg c' a' Hr') as [d' Hp'].
  destruct (run_capacity_shape cs initial_context c zero_stats d Spec.empty
              refines_initial eq_refl (or_introl eq_refl) Hrun Hp)
    as [Hsh _].
  destruct (call_capacity k c c' d d' a Hr Hp Hsh Hk Hp') as (_ & H1 & H2 & H3).
  by exists c', d'.
Qed.

Lemma capacity_only_grows_witness :
  exists c' d',
    do_call (enter 1%float) initial_context = Some c' /\
    pAgg c' = Some d' /\
    capacity zero_stats <= capacity d' /\
    (capacity d' = capacity zero_stats \/
     capacity d' = Spec.grown (capacity zero_stats)) /\
    (is_step (enter 1%float) = false -> capacity d' = capacity zero_stats).
Proof.
  exact (capacity_only_grows [] (enter 1%float) initial_context zero_stats
           eq_refl eq_refl).
Defined.

(** X7. On every accumulator reachable from the initial empty state,
    [capacity] is zero or [INITIAL_CAPACITY] while there is no buffer and
    [INITIAL_CAPACITY] times a power of two once there is one; the buffer
    then has exactly [capacity] slots and [count] of them are live. *)
Theorem capacity_is_initial_times_power_of_two (cs : list call)
    (c : sqlite3_context) (d : WindowStatsData) :
  run cs initial_context = Some c -> pAgg c = Some d ->
  match values d with
  | None => (capacity d = 0 \/ capacity d = INITIAL_CAPACITY) /\ count d = 0
  | Some buf =>
      (exists n : nat, capacity d = INITIAL_CAPACITY * 2 ^ Z.of_nat n) /\
      Z.of_nat (length buf) = capacity d /\
      0 <= count d <= capacity d
  end.
Proof.
  intros Hrun Hp.
  destruct (reachable cs) as (c0 & d0 & a & Hrun0 & _ & _ & Hr). simplify_eq.
  destruct (refines_inv c d a Hr Hp) as ([_ Hh] & _).
  destruct (run_capacity_shape cs initial_context c zero_stats d Spec.empty
              refines_initial eq_refl (or_introl eq_refl) Hrun Hp)
    as [Hsh _].
  unfold capacity_shape in Hsh.
  destruct (values d) as [buf|].
  - destruct Hh as (Hlen & _ & (Hc & _) & _). done.
  - by destruct Hh as (Hc & _).
Qed.

Lemma capacity_is_initial_times_power_of_two_witness :
  exists c d,
    run (first_rows 101) initial_context = Some c /\ pAgg c = Some d /\
    capacity d = 200 /\
    match values d with
    | None => (capacity d = 0 \/ capacity d = INITIAL_CAPACITY) /\ count d = 0
    | Some buf =>
        (exists n : nat, capacity d = INITIAL_CAPACITY * 2 ^ Z.of_nat n) /\
        Z.of_nat (length buf) = capacity d /\
        0 <= count d <= capacity d
    end.
Proof.
  eexists _, _.
  split; [vm_compute; reflexivity|].
  split; [reflexivity|]. split; [reflexivity|].
  eapply (capacity_is_initial_times_power_of_two (first_rows 101));
    [vm_compute; reflexivity|reflexivity].
Defined.

(** ** Inserting *)

(** X8. An insert into a buffer that is not full cannot fail and does not
    consult the allocator: on a well-formed accumulator with
    [count < capacity], [stats_step] on a numeric row returns the same
    context for every allocator, reports nothing, keeps [capacity] and
    [head], and appends the row's double to the live values and to the
    two aggregates. *)
Theorem insert_with_room (c : sqlite3_context) (d : WindowStatsData)
    (arg : sqlite3_value) (env env' : step_env) :
  pAgg c = Some d -> valid d -> values d <> None ->
  count d < capacity d -> numeric arg = true ->
  exists c' d' l,
    stats_step c [arg] env = Some c' /\
    stats_step c [arg] env' = Some c' /\
    result c' = result c /\ pAgg c' = Some d' /\
    capacity d' = capacity d /\ head d' = head d /\
    count d' = count d + 1 /\
    live d = Some l /\
    live d' = Some (l ++ [sqlite3_value_double arg]) /\
    sum d' = (sum d + sqlite3_value_double arg)%float /\
    sum_sq d' = (sum_sq d + sqlite3_value_double arg
                            * sqlite3_value_double arg)%float.
Proof.
  intros Hp [l Hh] Hv Hroom Hnum.
  remember (sqlite3_value_double arg) as v eqn:Hvv.
  destruct (add_holds d l v Hh Hv Hroom)
    as (d1 & Hadd & Hh1 & Hs1 & Hq1 & Hc1 & Hv1).
  assert (Hbound : 0 <= count d + 1 < 2 ^ 64).
  { destruct Hh as [_ Hb]. destruct (values d); [|done].
    destruct Hb as (_ & Hm & (? & _) & _). rewrite MAX_CAPACITY_eq in Hm. lia. }
  assert (Hhd : head d1 = head d /\ count d1 = count d + 1).
  { revert Hadd. unfold add_to_circular_buffer.
    repeat case_match; try done. intros [= <-]. simpl.
    split; [done|]. by apply size_wrap_small. }
  assert (Hgo : forall e, stats_step c [arg] e
    = Some (mkContext (Some (set_sums (sum d1 + v) (sum_sq d1 + v * v) d1))
                      (result c))).
  { intros e. unfold stats_step, sqlite3_aggregate_context.
    rewrite Hp. simpl. rewrite Hp.
    destruct (values d) eqn:Ev; [|done].
    apply Z.leb_gt in Hroom. rewrite Hroom.
    unfold numeric in Hnum.
    destruct (sqlite3_value_type arg); try done; by rewrite <- Hvv, Hadd. }
  eexists _, _, l. split; [apply Hgo|]. split; [apply Hgo|]. simpl.
  split; [done|]. split; [done|]. split; [done|].
  split; [apply Hhd|]. split; [apply Hhd|].
  split; [by apply live_of_holds|].
  split; [|by rewrite Hs1, Hq1].
  apply live_of_holds.
  destruct Hh1 as [Hl1 H1]. split; [done|]. simpl.
  by destruct (values d1).
Qed.

Lemma insert_with_room_witness :
  let d := mkStats (Some [1; 2; 0; 0]%float) 2 4 0 2 3%float 5%float in
  let c := mkContext (Some d) ResultUnset in
  exists c' d',
    stats_step c [SqlInteger 7] plenty = Some c' /\
    stats_step c [SqlInteger 7] no_heap = Some c' /\
    pAgg c' = Some d' /\
    live d' = Some [1; 2; 7]%float /\
    sum d' = 10%float /\ sum_sq d' = 54%float.
Proof.
  intros d c.
  assert (Hv : valid d).
  { exists [1; 2]%float. split; [reflexivity|]. simpl.
    split; [reflexivity|]. split; [vm_compute; discriminate|].
    split; [unfold buffer_invariant;
            repeat split; vm_compute; (reflexivity || discriminate)|].
    intros [|[|i]] x; simpl; try discriminate; by intros [= <-]. }
  destruct (insert_with_room c d (SqlInteger 7) plenty no_heap eq_refl Hv
              ltac:(discriminate) ltac:(reflexivity) eq_refl)
    as (c' & d' & l & H1 & H2 & _ & Hp' & _ & _ & _ & Hl & Hl' & Hs & Hq).
  exists c', d'. split; [exact H1|]. split; [exact H2|]. split; [exact Hp'|].
  injection Hl as <-.
  split; [exact Hl'|]. split; [exact Hs|exact Hq].
Defined.

(** ** Aggregate use: rows only enter *)

Lemma model_step_fresh_sums (arg : sqlite3_value) (env : step_env)
    (m m' : option Spec.acc) :
  model_call (Step arg env) m = m' ->
  (forall a, m = Some a ->
             Spec.sum a = fresh_sum (Spec.items a) /\
             Spec.sumSquares a = fresh_sum_squares (Spec.items a)) ->
  forall a', m' = Some a' ->
             Spec.sum a' = fresh_sum (Spec.items a') /\
             Spec.sumSquares a' = fresh_sum_squares (Spec.items a').
Proof.
  intros <- Hm a'. simpl.
  assert (He : forall a, attach m env = Some a ->
                         Spec.sum a = fresh_sum (Spec.items a) /\
                         Spec.sumSquares a = fresh_sum_squares (Spec.items a)).
  { unfold attach. destruct m as [a0|]; [intros a [= <-]; by apply Hm|].
    destruct (agg_ok env); [|done]. by intros a [= <-]. }
  destruct (attach m env) as [a|]; [|done].
  destruct (He a eq_refl) as [Hs Hq].
  unfold Spec.insert, Spec.prepare.
  repeat case_match; intros; simplify_eq; simpl; try done.
  all: unfold fresh_sum, fresh_sum_squares in *; rewrite !foldl_snoc.
  all: by rewrite Hs, Hq.
Qed.

(** X9. When rows only enter (no inverse call), [sum] and [sum_sq] are
    exactly the left-to-right double sums of the live values and of their
    squares, as a fresh pass over the buffer would compute them; NULL
    rows, rejected rows and refused allocations do not disturb this. *)
Theorem aggregate_sums_are_fresh (cs : list call) :
  forallb is_step cs = true ->
  exists c d l,
    run cs initial_context = Some c /\ pAgg c = Some d /\
    live d = Some l /\
    sum d = fresh_sum l /\ sum_sq d = fresh_sum_squares l.
Proof.
  intros Hst.
  destruct (reachable cs) as (c & d & a & Hrun & Hp & Ha & Hr).
  destruct (refines_inv c d a Hr Hp) as (Hh & Hs & Hq & _).
  exists c, d, (Spec.items a). split; [done|]. split; [done|].
  split; [by apply live_of_holds|]. rewrite Hs, Hq.
  clear -Hst Ha.
  assert (H0 : forall a0, Some Spec.empty = Some a0 ->
                 Spec.sum a0 = fresh_sum (Spec.items a0) /\
                 Spec.sumSquares a0 = fresh_sum_squares (Spec.items a0)).
  { by intros a0 [= <-]. }
  revert Ha H0. generalize (Some Spec.empty) as m.
  induction cs as [|k cs IH]; intros m Ha H0; simpl in *.
  - by apply H0.
  - apply andb_prop in Hst as [Hk Hst].
    destruct k as [arg env|]; [|done].
    apply (IH Hst (model_call (Step arg env) m)); [done|].
    by apply (model_step_fresh_sums arg env m).
Qed.

Lemma aggregate_sums_are_fresh_witness :
  exists c d l,
    run (first_rows 3) initial_context = Some c /\ pAgg c = Some d /\
    live d = Some l /\
    sum d = fresh_sum l /\ sum_sq d = fresh_sum_squares l.
Proof.
  exact (aggregate_sums_are_fresh (first_rows 3) eq_refl).
Defined.

(** ** Rejected calls *)

(** X10. A [stats_step] call that reports anything (a wrong argument
    count, a non-numeric row, an allocation failure) has inserted
    nothing: on a well-formed accumulator [count], [head], [tail], [sum],
    [sum_sq] and the live values are as before the call. *)
Theorem rejected_step_inserts_nothing (c c' : sqlite3_context)
    (d : WindowStatsData) (argv : list sqlite3_value) (env : step_env) :
  pAgg c = Some d -> valid d -> result c = ResultUnset ->
  stats_step c argv env = Some c' -> result c' <> ResultUnset ->
  exists d',
    pAgg c' = Some d' /\
    count d' = count d /\ head d' = head d /\ tail d' = tail d /\
    sum d' = sum d /\ sum_sq d' = sum_sq d /\ live d' = live d.
Proof.
  intros Hp [l Hh] Hr Hs Hn.
  assert (Hsame : pAgg c' = Some d \/
            (values d = None /\ exists d',
               pAgg c' = Some d' /\ count d' = 0 /\ head d' = 0 /\
               tail d' = 0 /\ sum d' = 0%float /\ sum_sq d' = 0%float)).
  { revert Hs. unfold stats_step, sqlite3_aggregate_context.
    destruct argv as [|arg [|]]; [intros [= <-]; by left| |intros [= <-]; by left].
    rewrite Hp. simpl. rewrite Hp, Hr.
    destruct (values d) as [buf|] eqn:Ev.
    - intros Hs. left.
      destruct arg; simpl in Hs; simplify_eq; simpl in *; try done.
      all: unfold grow_stats_buffer in Hs;
        repeat case_match; simplify_eq; simpl in *; done.
    - destruct Hh as [_ Hz]. rewrite Ev in Hz.
      destruct Hz as (Hc & Hhd & Htl & Hs0 & Hq0).
      unfold init_window_stats_data.
      destruct (malloc _ _) as [blk|] eqn:Em; simpl.
      + intros Hs. right. split; [done|].
        destruct arg; simpl in Hs; simplify_eq; simpl in *; try done.
        3,4: eexists; split; [reflexivity|]; simpl; done.
        all: exfalso; unfold add_to_circular_buffer in Hs; simpl in Hs;
          repeat case_match; simplify_eq; simpl in *; done.
      + intros [= <-]. right. split; [done|].
        eexists. split; [reflexivity|]. simpl. done. }
  destruct Hsame as [Hp'|(Ev & d' & Hp' & Hc' & Hh' & Ht' & Hs' & Hq')].
  - exists d. done.
  - destruct Hh as [_ Hz]. rewrite Ev in Hz.
    destruct Hz as (Hc & Hhd & Htl & Hs0 & Hq0).
    exists d'. split; [done|].
    rewrite Hc, Hhd, Htl, Hs0, Hq0. repeat (split; [done|]).
    by rewrite !live_empty.
Qed.

Lemma rejected_step_inserts_nothing_witness :
  let d := mkStats (Some [1; 2; 0; 0]%float) 2 4 0 2 3%float 5%float in
  let c := mkContext (Some d) ResultUnset in
  exists c' d',
    stats_step c [SqlText] plenty = Some c' /\
    result c' = ResultError "Invalid data type, expected numeric value." /\
    pAgg c' = Some d' /\
    count d' = count d /\ head d' = head d /\ tail d' = tail d /\
    sum d' = sum d /\ sum_sq d' = sum_sq d /\ live d' = live d.
Proof.
  intros d c.
  assert (Hv : valid d).
  { exists [1; 2]%float. split; [reflexivity|]. simpl.
    split; [reflexivity|]. split; [vm_compute; discriminate|].
    split; [unfold buffer_invariant;
            repeat split; vm_compute; (reflexivity || discriminate)|].
    intros [|[|i]] x; simpl; try discriminate; by intros [= <-]. }
  destruct (rejected_step_inserts_nothing c _ d [SqlText] plenty eq_refl Hv
              eq_refl eq_refl ltac:(discriminate)) as (d' & Hp' & H).
  eexists _, d'. split; [reflexivity|]. split; [reflexivity|].
  split; [exact Hp'|exact H].
Defined.

(** ** First in, first out *)

Lemma model_inserts (env : step_env) (vs : list float) (a : Spec.acc) :
  granted (heap env) = true ->
  Spec.count a + Z.of_nat (length vs) < 2 ^ 59 ->
  exists a',
    model_run ((fun v => Step (SqlFloat v) env) <$> vs) (Some a) = Some a' /\
    Spec.items a' = Spec.items a ++ vs.
Proof.
  intros Hg. revert a. induction vs as [|v vs IH]; intros a Hn; simpl.
  - exists a. by rewrite app_nil_r.
  - simpl in Hn.
    assert (Hins : exists c, Spec.insert a v (can_allocate (heap env))
                    = Some (Spec.mk (Spec.items a ++ [v]) c
                                    (Spec.sum a + v)
                                    (Spec.sumSquares a + v * v))).
    { unfold Spec.insert.
      destruct (Spec.count a =? Spec.cap a) eqn:E; [|eauto].
      apply Z.eqb_eq in E.
      assert (Hc : can_allocate (heap env) (Spec.grown (Spec.cap a)) = true).
      { unfold can_allocate. rewrite Hg. simpl. apply Z.leb_le.
        unfold Spec.grown, INITIAL_CAPACITY, CAPACITY_GROWTH_FACTOR,
          sizeof_double, PTRDIFF_MAX.
        unfold Spec.count in *.
        destruct (Spec.cap a =? 0); lia. }
      rewrite Hc. eauto. }
    destruct Hins as [c ->].
    destruct (IH (Spec.mk (Spec.items a ++ [v]) c (Spec.sum a + v)
                          (Spec.sumSquares a + v * v))) as (a' & Ha' & Hi).
    { unfold Spec.count in *. simpl. rewrite length_app. simpl. lia. }
    exists a'. split; [done|]. rewrite Hi. simpl. by rewrite <- app_assoc.
Qed.

(** X11. Insert then evict is a round trip.  If the allocator grants what
    fits in memory, inserting any list of fewer than 2^59 doubles into
    the empty accumulator, through however many growths, leaves exactly
    those values live, in order, and evicting as many times returns them
    in insertion order and empties the accumulator. *)
Theorem fifo_round_trip (env : step_env) (vs : list float) :
  granted (heap env) = true ->
  Z.of_nat (length vs) < 2 ^ 59 ->
  exists c d rest,
    run ((fun v => Step (SqlFloat v) env) <$> vs) initial_context = Some c /\
    pAgg c = Some d /\
    count d = Z.of_nat (length vs) /\
    live d = Some vs /\
    drain (length vs) d = Some (vs, rest) /\
    count rest = 0 /\ live rest = Some [].
Proof.
  intros Hg Hn.
  destruct (run_refines ((fun v => Step (SqlFloat v) env) <$> vs) _ _
              refines_initial) as (c & Hrun & Hr).
  destruct (model_inserts env vs Spec.empty Hg) as (a & Ha & Hi);
    [change (Spec.count Spec.empty) with 0; lia|].
  rewrite Ha in Hr. simpl in Hi.
  destruct (refines_pAgg c a Hr) as [d Hp].
  destruct (refines_inv c d a Hr Hp) as (Hh & _). rewrite Hi in Hh.
  destruct (drain_holds vs d Hh) as (rest & Hd & Hrest).
  exists c, d, rest. repeat (split; [done|]).
  split; [symmetry; by apply holds_length|].
  split; [by apply live_of_holds|]. split; [done|].
  split; [symmetry; by apply (holds_length rest [])|by apply live_of_holds].
Qed.

Lemma fifo_round_trip_witness :
  let vs := (fun i => double_of_Z (Z.of_nat i)) <$> seq 1 250 in
  exists c d rest,
    run ((fun v => Step (SqlFloat v) plenty) <$> vs) initial_context
    = Some c /\
    pAgg c = Some d /\
    count d = Z.of_nat (length vs) /\
    live d = Some vs /\
    drain (length vs) d = Some (vs, rest) /\
    count rest = 0 /\ live rest = Some [].
Proof.
  intros vs. apply (fifo_round_trip plenty vs); [reflexivity|].
  vm_compute. reflexivity.
Defined.

(** ** Lazy initialisation and teardown *)

(** X12. [stats_destroy] leaves [values] NULL and is idempotent, and
    lazy initialisation resets every field: after a teardown, whatever
    the accumulator held, a granted numeric step starts afresh with
    exactly that row ([count = 1], [head = 0], [tail = 1],
    [capacity = INITIAL_CAPACITY], [sum = 0 + v], [sum_sq = 0 + v*v]). *)
Theorem teardown_then_step_starts_afresh (d : WindowStatsData)
    (r : sql_result) (arg : sqlite3_value) (env : step_env) :
  numeric arg = true ->
  can_allocate (heap env) INITIAL_CAPACITY = true ->
  exists d0 c' d',
    stats_destroy (Some d) = Some d0 /\
    values d0 = None /\
    stats_destroy (Some d0) = Some d0 /\
    stats_step (mkContext (Some d0) r) [arg] env = Some c' /\
    result c' = r /\ pAgg c' = Some d' /\
    count d' = 1 /\ head d' = 0 /\ tail d' = 1 /\
    capacity d' = INITIAL_CAPACITY /\
    live d' = Some [sqlite3_value_double arg] /\
    sum d' = (0 + sqlite3_value_double arg)%float /\
    sum_sq d' = (0 + sqlite3_value_double arg
                     * sqlite3_value_double arg)%float.
Proof.
  intros Hnum Hcan.
  assert (Hd : exists d0, stats_destroy (Some d) = Some d0 /\
                          values d0 = None /\
                          stats_destroy (Some d0) = Some d0).
  { unfold stats_destroy. destruct (values d) eqn:Ev.
    - eexists. split; [reflexivity|]. simpl. done.
    - exists d. by rewrite Ev. }
  destruct Hd as (d0 & Hd0 & Ev0 & Hd1).
  exists d0.
  destruct (init_granted d0 (heap env) Hcan)
    as (d1 & Hi & Hh1 & Hv1 & Hc1 & Hn1 & Hhd1 & Htl1 & Hs1 & Hq1).
  remember (sqlite3_value_double arg) as v eqn:Hvv.
  destruct (add_holds d1 [] v Hh1 Hv1) as (d2 & Hadd & Hh2 & Hs2 & Hq2 & Hc2 & Hv2).
  { rewrite Hn1, Hc1. done. }
  assert (Hf : head d2 = 0 /\ tail d2 = 1 /\ count d2 = 1).
  { revert Hadd. unfold add_to_circular_buffer.
    repeat case_match; try done. intros [= <-]. simpl.
    rewrite Hhd1, Htl1, Hn1, Hc1. done. }
  assert (Hstep : stats_step (mkContext (Some d0) r) [arg] env
    = Some (mkContext (Some (set_sums (sum d2 + v) (sum_sq d2 + v * v) d2))
                      r)).
  { unfold stats_step, sqlite3_aggregate_context. simpl. rewrite Ev0, Hi.
    unfold numeric in Hnum.
    destruct (sqlite3_value_type arg); try done.
    all: rewrite Hn1, Hc1; simpl; by rewrite <- Hvv, Hadd. }
  eexists _, _. split; [done|]. split; [done|]. split; [done|].
  split; [exact Hstep|].
  simpl. split; [done|]. split; [done|].
  destruct Hf as (Hf1 & Hf2 & Hf3).
  split; [exact Hf3|]. split; [exact Hf1|]. split; [exact Hf2|].
  split; [simpl; by rewrite Hc2|].
  split; [|simpl; by rewrite Hs2, Hq2, Hs1, Hq1].
  apply live_of_holds. destruct Hh2 as [Hl2 H2]. split; [done|]. simpl.
  by destruct (values d2).
Qed.

Lemma teardown_then_step_starts_afresh_witness :
  let d := mkStats (Some [1; 2; 0; 0]%float) 2 4 0 2 3%float 5%float in
  exists d0 c' d',
    stats_destroy (Some d) = Some d0 /\
    values d0 = None /\
    stats_destroy (Some d0) = Some d0 /\
    stats_step (mkContext (Some d0) ResultUnset) [SqlInteger 9] plenty
    = Some c' /\
    result c' = ResultUnset /\ pAgg c' = Some d' /\
    count d' = 1 /\ head d' = 0 /\ tail d' = 1 /\
    capacity d' = INITIAL_CAPACITY /\
    live d' = Some [sqlite3_value_double (SqlInteger 9)] /\
    sum d' = (0 + sqlite3_value_double (SqlInteger 9))%float /\
    sum_sq d' = (0 + sqlite3_value_double (SqlInteger 9)
                     * sqlite3_value_double (SqlInteger 9))%float.
Proof.
  intros d.
  exact (teardown_then_step_starts_afresh d ResultUnset (SqlInteger 9) plenty
           eq_refl eq_refl).
Defined.

(** ** Registration *)

Lemma create_spec (db : sqlite3) (f : window_function) (env : registrar) :
  sqlite3_create_window_function db f env
  = if create_reply env (wf_name f) =? 0
    then (0, db ++ [f])
    else (create_reply env (wf_name f), db).
Proof.
  unfold sqlite3_create_window_function. simpl.
  destruct (create_reply env (wf_name f) =? 0) eqn:E; [|done].
  apply Z.eqb_eq in E. by rewrite E.
Qed.

Lemma register_names_spec (group : StatsFunctionGroup) (env : registrar)
    (todo : list string) (db : sqlite3) :
  exists added,
    snd (register_names db group todo env) = db ++ added /\
    added `prefix_of` group_functions group todo /\
    (fst (register_names db group todo env) = 0 <->
     Forall (name_accepted env) todo) /\
    (fst (register_names db group todo env) = 0 ->
     added = group_functions group todo) /\
    (fst (register_names db group todo env) <> 0 ->
     fst (register_names db group todo env) = rc_code SQLITE_NOMEM \/
     exists name, name ∈ todo /\
       (fst (register_names db group todo env) = create_reply env name \/
        fst (register_names db group todo env)
        = create_reply env (upper_name name))).
Proof.
  revert db. induction todo as [|name rest IH]; intros db.
  - exists []. simpl. rewrite app_nil_r. split; [done|]. split; [done|].
    split; [by split|]. split; [done|]. done.
  - cbn [register_names]. rewrite !create_spec.
    cbn [wf_name stats_function rc_code].
    unfold group_functions. rewrite bind_cons. fold (group_functions group rest).
    destruct (create_reply env name =? 0) eqn:E1.
    2:{ apply Z.eqb_neq in E1. cbn [negb]. rewrite (proj2 (Z.eqb_neq _ _) E1).
        simpl. exists []. rewrite app_nil_r. split; [done|].
        split; [apply prefix_nil|].
        split; [split; [done|intros H; apply Forall_cons in H as [[? _] _]; done]|].
        split; [done|]. intros _. right. exists name.
        split; [apply list_elem_of_here|by left]. }
    apply Z.eqb_eq in E1. simpl.
    destruct (name_alloc env (size_wrap (Z.of_nat (String.length name) + 1)))
      eqn:E2.
    2:{ simpl. exists [stats_function group name]. split; [done|].
        split; [by apply (prefix_app_r _ [_] _), prefix_cons, prefix_nil|].
        split; [split; [done|intros H; apply Forall_cons in H as [(_ & ? & _) _];
                                congruence]|].
        split; [done|]. intros _. by left. }
    simpl. rewrite create_spec. cbn [wf_name stats_function].
    destruct (create_reply env (upper_name name) =? 0) eqn:E3.
    2:{ apply Z.eqb_neq in E3. cbn [negb]. rewrite (proj2 (Z.eqb_neq _ _) E3).
        simpl. exists [stats_function group name]. split; [done|].
        split; [by apply (prefix_app_r _ [_] _), prefix_cons, prefix_nil|].
        split; [split; [done|intros H; apply Forall_cons in H as [(_ & _ & ?) _];
                                done]|].
        split; [done|]. intros _. right. exists name.
        split; [apply list_elem_of_here|by right]. }
    apply Z.eqb_eq in E3. simpl.
    destruct (IH ((db ++ [stats_function group name])
                  ++ [stats_function group (upper_name name)]))
      as (added & Hdb & Hpre & Hiff & Hall & Hcode).
    exists ([stats_function group name;
             stats_function group (upper_name name)] ++ added).
    split; [rewrite Hdb, <- !app_assoc; reflexivity|].
    split; [simpl; by do 2 apply prefix_cons|].
    split.
    { rewrite Hiff. split; [intros H; by apply Forall_cons|].
      intros H. by apply Forall_cons in H as [_ H]. }
    split; [intros H; by rewrite (Hall H)|].
    intros H. destruct (Hcode H) as [?|(n & Hn & Hr)]; [by left|].
    right. exists n. split; [by apply list_elem_of_further|done].
Qed.

(** X13. [register_stats_function_group] only appends to the function
    table: what it adds is an initial part of "each name followed by its
    uppercase version", in the order of the group's names, with one
    argument and the shared step/inverse callbacks; when it returns
    SQLITE_OK it has added all of them. *)
Theorem group_registered_in_order (db : sqlite3)
    (group : StatsFunctionGroup) (env : registrar) :
  exists added,
    snd (register_stats_function_group db group env) = db ++ added /\
    added `prefix_of` group_functions group (names group) /\
    (fst (register_stats_function_group db group env) = 0 ->
     added = group_functions group (names group)) /\
    Forall (fun f => wf_nArg f = 1 /\ wf_xStep f = stats_step /\
                     wf_xInverse f = stats_inverse /\
                     wf_xValue f = xValue group /\
                     wf_xFinal f = xFinal group) added.
Proof.
  destruct (register_names_spec group env (names group) db)
    as (added & Hdb & Hpre & _ & Hall & _).
  exists added. split; [done|]. split; [done|]. split; [done|].
  destruct Hpre as [k Hk].
  assert (Hf : Forall (fun f => wf_nArg f = 1 /\ wf_xStep f = stats_step /\
                          wf_xInverse f = stats_inverse /\
                          wf_xValue f = xValue group /\
                          wf_xFinal f = xFinal group)
                      (group_functions group (names group))).
  { unfold group_functions. apply Forall_bind, Forall_forall.
    intros n _. by repeat constructor. }
  rewrite Hk in Hf. by apply Forall_app in Hf as [Hf _].
Qed.

(** X14. [register_stats_function_group] returns SQLITE_OK exactly when
    SQLite accepts every name and its uppercase version and every name
    buffer is allocated; otherwise it returns SQLITE_NOMEM or the code
    SQLite gave for one of the group's names. *)
Theorem group_registration_result (db : sqlite3)
    (group : StatsFunctionGroup) (env : registrar) :
  (fst (register_stats_function_group db group env) = 0 <->
   Forall (name_accepted env) (names group)) /\
  (fst (register_stats_function_group db group env) <> 0 ->
   fst (register_stats_function_group db group env) = rc_code SQLITE_NOMEM \/
   exists name, name ∈ names group /\
     (fst (register_stats_function_group db group env)
      = create_reply env name \/
      fst (register_stats_function_group db group env)
      = create_reply env (upper_name name))).
Proof.
  destruct (register_names_spec group env (names group) db)
    as (added & _ & _ & Hiff & _ & Hcode).
  done.
Qed.

Lemma register_groups_spec (env : registrar)
    (groups : list StatsFunctionGroup) (db : sqlite3) :
  fst (register_groups db groups env) = 0 ->
  snd (register_groups db groups env)
  = db ++ (groups ≫= fun group => group_functions group (names group)).
Proof.
  revert db. induction groups as [|g gs IH]; intros db; simpl.
  - by rewrite app_nil_r.
  - destruct (register_names_spec g env (names g) db)
      as (added & Hdb & _ & _ & Hall & _).
    unfold register_stats_function_group.
    destruct (register_names db g (names g) env) as [rc db1] eqn:E.
    simpl in *.
    destruct (rc =? 0) eqn:E0; simpl.
    + apply Z.eqb_eq in E0. intros H. rewrite (IH db1 H), Hdb, (Hall E0).
      by rewrite <- app_assoc.
    + apply Z.eqb_neq in E0. done.
Qed.

(** X15. When [sqlite3_extension_init] returns SQLITE_OK it has added to
    the function table, in order, the 22 names of the four groups each
    followed by its uppercase version, every alias bound to the value and
    final callbacks of its own group: for instance [stddev] and
    [standard_deviation] are the sample standard deviation and [variance]
    and [var] the sample variance. *)
Theorem extension_init_registers_aliases (db : sqlite3) (env : registrar) :
  fst (sqlite3_extension_init db env) = 0 ->
  snd (sqlite3_extension_init db env) = db ++ all_functions /\
  wf_name <$> all_functions
  = ["stddev_samp"; "STDDEV_SAMP"; "stddev_sample"; "STDDEV_SAMPLE";
     "stdev_samp"; "STDEV_SAMP"; "stdev_sample"; "STDEV_SAMPLE";
     "stddev"; "STDDEV"; "stdev"; "STDEV"; "std_dev"; "STD_DEV";
     "standard_deviation"; "STANDARD_DEVIATION";
     "stddev_pop"; "STDDEV_POP"; "stddev_population"; "STDDEV_POPULATION";
     "stdev_pop"; "STDEV_POP"; "stdev_population"; "STDEV_POPULATION";
     "variance_samp"; "VARIANCE_SAMP"; "variance_sample"; "VARIANCE_SAMPLE";
     "var_samp"; "VAR_SAMP"; "var_sample"; "VAR_SAMPLE";
     "variance"; "VARIANCE"; "var"; "VAR";
     "variance_pop"; "VARIANCE_POP"; "variance_population";
     "VARIANCE_POPULATION"; "var_pop"; "VAR_POP"; "var_population";
     "VAR_POPULATION"]%string /\
  forall group name,
    group ∈ functions_to_register -> name ∈ names group ->
    stats_function group name ∈ snd (sqlite3_extension_init db env) /\
    stats_function group (upper_name name)
    ∈ snd (sqlite3_extension_init db env).
Proof.
  intros H. unfold sqlite3_extension_init in *.
  rewrite (register_groups_spec env functions_to_register db H).
  fold all_functions.
  split; [done|]. split; [reflexivity|].
  intros group name Hg Hn.
  assert (Hin : forall f, f ∈ group_functions group (names group) ->
                          f ∈ db ++ all_functions).
  { intros f Hf. apply elem_of_app. right. unfold all_functions.
    apply list_elem_of_bind. by exists group. }
  split; apply Hin; unfold group_functions; apply list_elem_of_bind;
    exists name; (split; [|done]).
  - apply list_elem_of_here.
  - apply list_elem_of_further, list_elem_of_here.
Qed.

Lemma extension_init_registers_aliases_witness :
  fst (sqlite3_extension_init [] willing) = 0 /\
  snd (sqlite3_extension_init [] willing) = [] ++ all_functions.
Proof.
  assert (H : fst (sqlite3_extension_init [] willing) = 0)
    by (vm_compute; reflexivity).
  split; [exact H|].
  exact (proj1 (extension_init_registers_aliases [] willing H)).
Defined.

(** ** NULL rows *)

Lemma model_call_logical (k : call) (a1 a2 a1' a2' : Spec.acc) :
  call_granted k = true ->
  Spec.count a1 < 2 ^ 59 ->
  logical a1 = logical a2 ->
  model_call k (Some a1) = Some a1' ->
  model_call k (Some a2) = Some a2' ->
  logical a1' = logical a2' /\ Spec.count a1' <= Spec.count a1 + 1.
Proof.
  intros Hg Hn Hl. unfold logical in Hl.
  assert (Hi : Spec.items a1 = Spec.items a2) by congruence.
  assert (Hs : Spec.sum a1 = Spec.sum a2) by congruence.
  assert (Hq : Spec.sumSquares a1 = Spec.sumSquares a2) by congruence.
  clear Hl.
  assert (Hc : Spec.count a2 = Spec.count a1)
    by (unfold Spec.count; by rewrite Hi).
  assert (Hins : forall a v env, granted (heap env) = true ->
            Spec.count a < 2 ^ 59 ->
            exists c, Spec.insert a v (can_allocate (heap env))
              = Some (Spec.mk (Spec.items a ++ [v]) c (Spec.sum a + v)
                              (Spec.sumSquares a + v * v))).
  { intros a v env Hgr Hb. unfold Spec.insert.
    destruct (Spec.count a =? Spec.cap a) eqn:E; [|eauto].
    apply Z.eqb_eq in E.
    assert (Hcan : can_allocate (heap env) (Spec.grown (Spec.cap a)) = true).
    { unfold can_allocate. rewrite Hgr. simpl. apply Z.leb_le.
      unfold Spec.grown, INITIAL_CAPACITY, CAPACITY_GROWTH_FACTOR,
        sizeof_double, PTRDIFF_MAX.
      destruct (Spec.cap a =? 0); lia. }
    rewrite Hcan. eauto. }
  destruct k as [arg env|arg]; simpl in *.
  - destruct (numeric arg).
    + destruct (Hins a1 (sqlite3_value_double arg) env Hg Hn) as [c1 ->].
      destruct (Hins a2 (sqlite3_value_double arg) env Hg) as [c2 ->];
        [lia|].
      intros [= <-] [= <-]. unfold logical, Spec.count. simpl.
      rewrite length_app. simpl. split; [congruence|lia].
    + unfold Spec.prepare.
      repeat case_match; intros; simplify_eq; unfold logical, Spec.count;
        simpl; rewrite ?Hi, ?Hs, ?Hq; (split; [done|lia]).
  - unfold Spec.evict. rewrite <- Hi, <- Hs, <- Hq.
    assert (Hsame : logical a1 = logical a2)
      by (unfold logical; congruence).
    destruct (Spec.items a1) as [|x rest] eqn:E1;
      destruct (sqlite3_value_type arg); simpl;
      intros [= <-] [= <-]; unfold logical, Spec.count in *; simpl;
      rewrite ?E1; simpl; (split; [congruence|lia]).
Qed.

Lemma model_null_logical (k : call) (a a' : Spec.acc) :
  null_row k = true ->
  model_call k (Some a) = Some a' ->
  logical a' = logical a.
Proof.
  destruct k as [arg env|arg]; simpl; unfold numeric;
    destruct (sqlite3_value_type arg); try done.
  - unfold Spec.prepare. by repeat case_match; intros; simplify_eq.
  - by intros _ [= <-].
Qed.

Lemma model_run_without_nulls (cs : list call) (a1 a2 : Spec.acc) :
  forallb call_granted cs = true ->
  Spec.count a1 + Z.of_nat (length cs) < 2 ^ 59 ->
  logical a1 = logical a2 ->
  exists a1' a2',
    model_run cs (Some a1) = Some a1' /\
    model_run (filter (fun k => null_row k = false) cs) (Some a2)
    = Some a2' /\
    logical a1' = logical a2'.
Proof.
  revert a1 a2. induction cs as [|k cs IH]; intros a1 a2 Hg Hn Hl.
  - simpl. by exists a1, a2.
  - simpl in Hg, Hn. apply andb_prop in Hg as [Hgk Hg].
    destruct (model_call_Some k a1) as [b1 Hb1].
    destruct (model_call_Some k a2) as [b2 Hb2].
    destruct (model_call_logical k a1 a2 b1 b2 Hgk ltac:(lia) Hl Hb1 Hb2)
      as [Hlb Hcb].
    cbn [model_run]. rewrite Hb1.
    destruct (null_row k) eqn:En.
    + rewrite filter_cons_False by (by rewrite En).
      apply (IH b1 a2 Hg); [lia|].
      rewrite (model_null_logical k a1 b1 En Hb1). done.
    + rewrite filter_cons_True by done.
      cbn [model_run]. rewrite Hb2.
      apply (IH b1 b2 Hg); [lia|done].
Qed.

(** X16. NULL rows do not contribute: as long as [malloc] grants what
    fits in memory, a sequence of fewer than 2^59 calls leaves the same
    live values, [count], [sum] and [sum_sq], hence the same four
    statistics, as the sequence with its NULL-row calls deleted. *)
Theorem null_rows_do_not_contribute (cs : list call) :
  forallb call_granted cs = true ->
  Z.of_nat (length cs) < 2 ^ 59 ->
  exists c1 c2 d1 d2,
    run cs initial_context = Some c1 /\ pAgg c1 = Some d1 /\
    run (filter (fun k => null_row k = false) cs) initial_context
    = Some c2 /\ pAgg c2 = Some d2 /\
    live d1 = live d2 /\ count d1 = count d2 /\
    sum d1 = sum d2 /\ sum_sq d1 = sum_sq d2 /\
    calculate_variance_sample d1 = calculate_variance_sample d2 /\
    calculate_variance_population d1 = calculate_variance_population d2 /\
    calculate_stddev_sample d1 = calculate_stddev_sample d2 /\
    calculate_stddev_population d1 = calculate_stddev_population d2.
Proof.
  intros Hg Hn.
  destruct (model_run_without_nulls cs Spec.empty Spec.empty Hg)
    as (a1 & a2 & Ha1 & Ha2 & Hl);
    [change (Spec.count Spec.empty) with 0; lia|done|].
  destruct (reachable cs) as (c1 & d1 & b1 & Hrun1 & Hp1 & Hb1 & Hr1).
  destruct (reachable (filter (fun k => null_row k = false) cs))
    as (c2 & d2 & b2 & Hrun2 & Hp2 & Hb2 & Hr2).
  simplify_eq.
  destruct (refines_inv c1 d1 a1 Hr1 Hp1) as (Hh1 & Hs1 & Hq1 & _).
  destruct (refines_inv c2 d2 a2 Hr2 Hp2) as (Hh2 & Hs2 & Hq2 & _).
  unfold logical in Hl.
  assert (Hi : Spec.items a1 = Spec.items a2) by congruence.
  assert (Hs : Spec.sum a1 = Spec.sum a2) by congruence.
  assert (Hq : Spec.sumSquares a1 = Spec.sumSquares a2) by congruence.
  assert (Hc : count d1 = count d2).
  { rewrite <- (holds_length d1 _ Hh1), <- (holds_length d2 _ Hh2).
    by rewrite Hi. }
  assert (Hsum : sum d1 = sum d2) by congruence.
  assert (Hsq : sum_sq d1 = sum_sq d2) by congruence.
  exists c1, c2, d1, d2. repeat (split; [done|]).
  split; [rewrite (live_of_holds d1 _ Hh1), (live_of_holds d2 _ Hh2);
          by rewrite Hi|].
  split; [done|]. split; [done|]. split; [done|].
  unfold calculate_stddev_sample, calculate_stddev_population,
    calculate_variance_sample, calculate_variance_population.
  by rewrite Hc, Hsum, Hsq.
Qed.

Lemma null_rows_do_not_contribute_witness :
  let cs := [enter 1%float; Step SqlNull plenty; enter 3%float;
             Inverse SqlNull; leave] in
  exists c1 c2 d1 d2,
    run cs initial_context = Some c1 /\ pAgg c1 = Some d1 /\
    run (filter (fun k => null_row k = false) cs) initial_context
    = Some c2 /\ pAgg c2 = Some d2 /\
    live d1 = live d2 /\ count d1 = count d2 /\
    sum d1 = sum d2 /\ sum_sq d1 = sum_sq d2 /\
    calculate_variance_sample d1 = calculate_variance_sample d2 /\
    calculate_variance_population d1 = calculate_variance_population d2 /\
    calculate_stddev_sample d1 = calculate_stddev_sample d2 /\
    calculate_stddev_population d1 = calculate_stddev_population d2.
Proof.
  intros cs.
  apply (null_rows_do_not_contribute cs); [reflexivity|].
  vm_compute. reflexivity.
Defined.

(** X17. A group or window all of whose rows are NULL has no result:
    after any sequence of calls with NULL rows only, whatever the
    allocators answer, all four value callbacks and all four final
    callbacks yield NULL. *)
Theorem all_null_rows_give_null (cs : list call) :
  forallb null_row cs = true ->
  exists c,
    run cs fresh_context = Some c /\
    result (stddev_samp_value c) = ResultNull /\
    result (stddev_pop_value c) = ResultNull /\
    result (variance_samp_value c) = ResultNull /\
    result (variance_pop_value c) = ResultNull /\
    result (stddev_samp_final c) = ResultNull /\
    result (stddev_pop_final c) = ResultNull /\
    result (variance_samp_final c) = ResultNull /\
    result (variance_pop_final c) = ResultNull.
Proof.
  intros Hnull.
  destruct (run_refines cs _ _ refines_fresh_context) as (c & Hrun & Hr).
  exists c. split; [done|].
  assert (Hempty : forall m, (forall a, m = Some a -> Spec.items a = []) ->
            forall a, model_run cs m = Some a -> Spec.items a = []).
  { clear Hrun Hr. induction cs as [|k cs IH]; intros m Hm a; simpl.
    - apply Hm.
    - simpl in Hnull. apply andb_prop in Hnull as [Hk Hn].
      apply (IH Hn). intros b.
      destruct k as [arg env|arg]; simpl in *; unfold numeric;
        destruct (sqlite3_value_type arg); try done.
      + unfold attach, Spec.prepare.
        destruct m as [a0|]; [|destruct (agg_ok env); [|done]];
          repeat case_match; intros; simplify_eq; simpl; eauto.
      + destruct m as [a0|]; [|done]. intros [= <-]. by apply Hm. }
  assert (Hcount : forall d, pAgg c = Some d -> count d = 0).
  { intros d Hp. unfold refines in Hr. rewrite Hp in Hr.
    destruct (model_run cs None) as [a|] eqn:Ea; [|done].
    destruct Hr as (Hh & _).
    rewrite <- (holds_length d _ Hh), (Hempty None ltac:(done) a Ea). done. }
  unfold stddev_samp_value, stddev_pop_value, variance_samp_value,
    variance_pop_value, stddev_samp_final, stddev_pop_final,
    variance_samp_final, variance_pop_final, stats_value_helper,
    stats_final_helper, sqlite3_aggregate_context.
  destruct (pAgg c) as [d|] eqn:Hp; simpl; rewrite ?Hp; [|done].
  rewrite (Hcount d eq_refl).
  by destruct (values d).
Qed.

Lemma all_null_rows_give_null_witness :
  exists c,
    run [Step SqlNull plenty; Inverse SqlNull; Step SqlNull no_heap]
        fresh_context = Some c /\
    result (stddev_samp_value c) = ResultNull /\
    result (stddev_pop_value c) = ResultNull /\
    result (variance_samp_value c) = ResultNull /\
    result (variance_pop_value c) = ResultNull /\
    result (stddev_samp_final c) = ResultNull /\
    result (stddev_pop_final c) = ResultNull /\
    result (variance_samp_final c) = ResultNull /\
    result (variance_pop_final c) = ResultNull.
Proof.
  exact (all_null_rows_give_null
           [Step SqlNull plenty; Inverse SqlNull; Step SqlNull no_heap]
           eq_refl).
Defined.
